(** * BreezySTM32, drv_system.c: timebase, busy-wait delays, backup register
    and reset path for the STM32F103.

    The C file is embedded shallowly.  The two file-scope statics and the
    memory-mapped registers the functions touch are the fields of [machine];
    main-line code is written in a small monad [M] that threads the machine
    together with a schedule of hardware interference (SysTick interrupts
    and the free-running countdown register), and every read of the
    timebase consumes one entry of that schedule. *)

From Stdlib Require Import ZArith NArith List Bool Lia.
Import ListNotations.
Local Open Scope Z_scope.

(** ** Fixed-width arithmetic of the C types *)

Module Word.

Definition u16 (x : Z) : Z := x mod 2 ^ 16.
Definition u32 (x : Z) : Z := x mod 2 ^ 32.
Definition u64 (x : Z) : Z := x mod 2 ^ 64.

(** [int] on this target: 32 bits, two's complement.  gcc defines a left
    shift that leaves the range as wrapping. *)
Definition s32 (x : Z) : Z := (x + 2 ^ 31) mod 2 ^ 32 - 2 ^ 31.

End Word.
Import Word.

(** ** Machine state *)

Inductive pin : Type := LED0 | LED1.

(** Register writes of main-line code.  They are volatile accesses, which
    the source orders among themselves; stores through plain pointers are
    not among them. *)
Inductive store : Type :=
| StAPB1ENR (value : Z)         (* RCC->APB1ENR = value *)
| StPWR_CR (value : Z)          (* PWR->CR = value *)
| StAIRCR (value : Z)           (* SCB->AIRCR = value *)
| StLED (p : pin) (lit : bool). (* indicator pin driven on or off *)

Record machine : Type := mkMachine {
  usTicks : Z;           (* static volatile uint32_t usTicks *)
  sysTickUptime : Z;     (* static volatile uint32_t sysTickUptime *)
  SYSCLK_Frequency : Z;  (* what RCC_GetClocksFreq reports *)
  SysTick_VAL : Z;       (* SysTick->VAL, the live countdown register *)
  led0 : bool;           (* indicator 0 asserted *)
  led1 : bool;           (* indicator 1 asserted *)
  RCC_APB1ENR : Z;
  PWR_CR : Z;
  BKP : Z -> Z;          (* halfwords of the backup region, by index *)
  RAM : Z -> Z;          (* words of SRAM, by address *)
  bus : list store       (* register writes issued so far, oldest first *)
}.

Definition set_usTicks (v : Z) (m : machine) : machine :=
  mkMachine v (sysTickUptime m) (SYSCLK_Frequency m) (SysTick_VAL m)
            (led0 m) (led1 m) (RCC_APB1ENR m) (PWR_CR m) (BKP m) (RAM m) (bus m).

Definition set_sysTickUptime (v : Z) (m : machine) : machine :=
  mkMachine (usTicks m) v (SYSCLK_Frequency m) (SysTick_VAL m)
            (led0 m) (led1 m) (RCC_APB1ENR m) (PWR_CR m) (BKP m) (RAM m) (bus m).

Definition set_SysTick_VAL (v : Z) (m : machine) : machine :=
  mkMachine (usTicks m) (sysTickUptime m) (SYSCLK_Frequency m) v
            (led0 m) (led1 m) (RCC_APB1ENR m) (PWR_CR m) (BKP m) (RAM m) (bus m).

Definition set_led (p : pin) (lit : bool) (m : machine) : machine :=
  mkMachine (usTicks m) (sysTickUptime m) (SYSCLK_Frequency m) (SysTick_VAL m)
            (match p with LED0 => lit | LED1 => led0 m end)
            (match p with LED0 => led1 m | LED1 => lit end)
            (RCC_APB1ENR m) (PWR_CR m) (BKP m) (RAM m) (bus m).

Definition set_RCC_APB1ENR (v : Z) (m : machine) : machine :=
  mkMachine (usTicks m) (sysTickUptime m) (SYSCLK_Frequency m) (SysTick_VAL m)
            (led0 m) (led1 m) v (PWR_CR m) (BKP m) (RAM m) (bus m).

Definition set_PWR_CR (v : Z) (m : machine) : machine :=
  mkMachine (usTicks m) (sysTickUptime m) (SYSCLK_Frequency m) (SysTick_VAL m)
            (led0 m) (led1 m) (RCC_APB1ENR m) v (BKP m) (RAM m) (bus m).

Definition upd (f : Z -> Z) (k v : Z) : Z -> Z :=
  fun k' => if k' =? k then v else f k'.

Definition set_BKP (k v : Z) (m : machine) : machine :=
  mkMachine (usTicks m) (sysTickUptime m) (SYSCLK_Frequency m) (SysTick_VAL m)
            (led0 m) (led1 m) (RCC_APB1ENR m) (PWR_CR m) (upd (BKP m) k v) (RAM m)
            (bus m).

Definition set_RAM (k v : Z) (m : machine) : machine :=
  mkMachine (usTicks m) (sysTickUptime m) (SYSCLK_Frequency m) (SysTick_VAL m)
            (led0 m) (led1 m) (RCC_APB1ENR m) (PWR_CR m) (BKP m) (upd (RAM m) k v)
            (bus m).

Definition issue (st : store) (m : machine) : machine :=
  mkMachine (usTicks m) (sysTickUptime m) (SYSCLK_Frequency m) (SysTick_VAL m)
            (led0 m) (led1 m) (RCC_APB1ENR m) (PWR_CR m) (BKP m) (RAM m)
            (bus m ++ [st]).

(** The uint32_t statics hold values of their type. *)
Definition wf (m : machine) : Prop :=
  0 <= usTicks m < 2 ^ 32 /\ 0 <= sysTickUptime m < 2 ^ 32.

(** ** The tick interrupt and the hardware around main-line code *)

(** void SysTick_Handler(void) { sysTickUptime++; } *)
Definition SysTick_Handler (m : machine) : machine :=
  set_sysTickUptime (u32 (sysTickUptime m + 1)) m.

(** What happens between two consecutive main-line accesses to the
    timebase: [ticks] deliveries of the SysTick interrupt, after which the
    countdown register shows [val]. *)
Record interference : Type := mkInterference { ticks : N; val : Z }.

Definition schedule : Type := list interference.

Definition interfere (e : interference) (m : machine) : machine :=
  set_SysTick_VAL (val e) (N.iter (ticks e) SysTick_Handler m).

Definition run (es : schedule) (m : machine) : machine :=
  fold_left (fun m' e => interfere e m') es m.

Definition total_ticks (es : schedule) : N :=
  fold_right (fun e n => (ticks e + n)%N) 0%N es.

(** ** The monad of main-line code *)

Inductive outcome (A : Type) : Type :=
| Ret (a : A) (m : machine) (s : schedule) (* the call returned [a] *)
| Reboot (m : machine)                     (* the core was reset *)
| Trap                                     (* division by zero *)
| Busy.                                    (* still looping when the schedule ends *)

Arguments Ret {A} a m s.
Arguments Reboot {A} m.
Arguments Trap {A}.
Arguments Busy {A}.

Definition M (A : Type) : Type := machine -> schedule -> outcome A.

Definition ret {A} (a : A) : M A := fun m s => Ret a m s.

Definition bind {A B} (c : M A) (k : A -> M B) : M B :=
  fun m s =>
    match c m s with
    | Ret a m' s' => k a m' s'
    | Reboot m' => Reboot m'
    | Trap => Trap
    | Busy => Busy
    end.

Declare Scope prog_scope.
Delimit Scope prog_scope with prog.
Notation "x <- c ;; k" := (bind c (fun x => k))
  (at level 61, c at next level, right associativity) : prog_scope.
Notation "c ;; k" := (bind c (fun _ => k))
  (at level 61, right associativity) : prog_scope.
Local Open Scope prog_scope.

Definition trap {A} : M A := fun _ _ => Trap.
Definition busy {A} : M A := fun _ _ => Busy.

(** Plain access to state that the interrupt does not touch. *)
Definition get {A} (f : machine -> A) : M A := fun m s => Ret (f m) m s.
Definition modify (f : machine -> machine) : M unit := fun m s => Ret tt (f m) s.

(** A read of the timebase: the hardware has moved on since the previous
    access. *)
Definition vread (f : machine -> Z) : M Z :=
  fun m s =>
    match s with
    | [] => Busy
    | e :: s' => let m' := interfere e m in Ret (f m') m' s'
    end.

(** ** Timebase *)

(** static void cycleCounterInit(void) *)
Definition cycleCounterInit : M unit :=
  f <- get SYSCLK_Frequency ;;
  modify (set_usTicks (u32 (u32 f / 1000000))).

(** The do/while of micros(): one pass reads sysTickUptime, SysTick->VAL
    and sysTickUptime again. *)
Fixpoint micros_sample (fuel : nat) : M (Z * Z) :=
  match fuel with
  | O => busy
  | S fuel' =>
      ms <- vread sysTickUptime ;;
      cycle_cnt <- vread SysTick_VAL ;;
      again <- vread sysTickUptime ;;
      if negb (ms =? again) then micros_sample fuel' else ret (ms, cycle_cnt)
  end.

(** The return expression of micros(), on the sampled pair. *)
Definition micros_value (us ms cycle_cnt : Z) : Z :=
  u64 (u64 (u64 ms * 1000) + u64 (u32 (u32 (us * 1000) - cycle_cnt) / us)).

(** What micros() computes from the machine as it stands at one instant. *)
Definition stamp (m : machine) : Z :=
  micros_value (usTicks m) (sysTickUptime m) (SysTick_VAL m).

(** uint64_t micros(void) *)
Definition micros : M Z :=
  fun m s =>
    (p <- micros_sample (length s) ;;
     us <- get usTicks ;;
     if us =? 0 then trap
     else ret (micros_value us (fst p) (snd p))) m s.

(** uint32_t millis(void) *)
Definition millis : M Z := vread sysTickUptime.

(** ** Delays *)

(** while(micros() < (now + us)); *)
Fixpoint spin (fuel : nat) (deadline : Z) : M unit :=
  match fuel with
  | O => busy
  | S fuel' =>
      t <- micros ;;
      if t <? deadline then spin fuel' deadline else ret tt
  end.

(** void delayMicroseconds(uint32_t us) *)
Definition delayMicroseconds (us : Z) : M unit :=
  fun m s =>
    (now <- micros ;;
     spin (length s) (u64 (now + us))) m s.

(** while (ms--) delayMicroseconds(1000); *)
Fixpoint delay_loop (fuel : nat) (ms : Z) : M unit :=
  match fuel with
  | O => busy
  | S fuel' =>
      if ms =? 0 then ret tt
      else delayMicroseconds 1000 ;; delay_loop fuel' (u32 (ms - 1))
  end.

(** void delay(uint32_t ms) *)
Definition delay (ms : Z) : M unit := delay_loop (S (Z.to_nat ms)) ms.

(** The delay of the specification: the microsecond delay, 1000 at a time,
    [n] times in sequence. *)
Fixpoint delay_spec (n : nat) : M unit :=
  match n with
  | O => ret tt
  | S n' => delayMicroseconds 1000 ;; delay_spec n'
  end.

(** [k + 1] calls of micros() in sequence, returning the value of the last. *)
Fixpoint micros_calls (k : nat) : M Z :=
  match k with
  | O => micros
  | S k' => micros ;; micros_calls k'
  end.

(** The formula of the specification, over the integers:
    ms * 1000 + (scale * 1000 - countdown_register) / scale. *)
Definition micros_spec (scale ms countdown_register : Z) : Z :=
  ms * 1000 + (scale * 1000 - countdown_register) / scale.

(** ** Backup register, reset and failure indication *)

(** *((uint16_t * )BKP_BASE + index) = value: a store through a plain
    pointer.  It changes the halfword; the source does not order it against
    the register writes, and it is not recorded on the bus. *)
Definition store_BKP (index value : Z) : M unit :=
  modify (set_BKP index value).

(** *((uint32_t * )addr) = value: a store through a plain pointer, as the
    one above. *)
Definition store_RAM (addr value : Z) : M unit :=
  modify (set_RAM addr value).

(** uint32_t rccReadBkpDr(void): both halfwords are promoted to int, the
    high one is shifted as an int, and the result converts to uint32_t. *)
Definition rccReadBkpDr : M Z :=
  lo <- get (fun m => BKP m 0x04) ;;
  hi <- get (fun m => BKP m 0x08) ;;
  ret (u32 (Z.lor lo (s32 (Z.shiftl hi 16)))).

(** SCB->AIRCR = value.  What the store does is the hardware's part: the
    core honours it only with the key 0x05FA in the top halfword and resets
    when bit 2 (SYSRESETREQ) is set, so that control does not come back to
    the caller and execution resumes at the boot vector. *)
Definition write_AIRCR (value : Z) : M unit :=
  fun m s =>
    let m' := issue (StAIRCR value) m in
    if (Z.shiftr value 16 =? 0x05FA) && Z.testbit value 2
    then Reboot m' else Ret tt m' s.

Definition AIRCR_VECTKEY_MASK : Z := 0x05FA0000.

(** Modelled from the spec: the pin-level operation behind the LED macros of
    the board header, which asserts or deasserts one indicator output. *)
Definition LED_drive (p : pin) (lit : bool) : M unit :=
  modify (fun m => issue (StLED p lit) (set_led p lit m)).

(** Modelled from the spec: the macro LED0_ON of the board header, which
    asserts indicator 0. *)
Definition LED0_ON : M unit := LED_drive LED0 true.

(** Modelled from the spec: the macro LED1_OFF of the board header, which
    deasserts indicator 1. *)
Definition LED1_OFF : M unit := LED_drive LED1 false.

Section Board.

(** Constants of the vendor and board headers. *)
Variables RCC_APB1Periph_PWR RCC_APB1Periph_BKP PWR_CR_DBP BKP_SOFTRESET : Z.

(** Modelled from the spec: RCC_APB1PeriphClockCmd(periph, ENABLE) of the
    vendor library, which sets the clock-enable bits of [periph]. *)
Definition RCC_APB1PeriphClockCmd_ENABLE (periph : Z) : M unit :=
  modify (fun m =>
            let v := u32 (Z.lor (RCC_APB1ENR m) periph) in
            issue (StAPB1ENR v) (set_RCC_APB1ENR v m)).

(** void rccWriteBkpDr(uint32_t value) *)
Definition rccWriteBkpDr (value : Z) : M unit :=
  RCC_APB1PeriphClockCmd_ENABLE (Z.lor RCC_APB1Periph_PWR RCC_APB1Periph_BKP) ;;
  modify (fun m =>
            let v := u32 (Z.lor (PWR_CR m) PWR_CR_DBP) in
            issue (StPWR_CR v) (set_PWR_CR v m)) ;;
  store_BKP 0x04 (u16 (Z.land value 0xffff)) ;;
  store_BKP 0x08 (u16 (Z.shiftr (Z.land value 0xffff0000) 16)).

(** void systemReset(bool toBootloader) *)
Definition systemReset (toBootloader : bool) : M unit :=
  (if toBootloader then store_RAM 0x20004FF0 0xDEADBEEF else ret tt) ;;
  rccWriteBkpDr (u32 BKP_SOFTRESET) ;;
  write_AIRCR (u32 (Z.lor AIRCR_VECTKEY_MASK 0x04)).

(** void failureMode() *)
Definition failureMode : M unit :=
  LED1_OFF ;;
  LED0_ON ;;
  systemReset false.

End Board.

(** The register writes of rccWriteBkpDr from machine [m], in order: clock
    enable, then write-protection unlock. *)
Definition unlock_writes (pwr bkp dbp : Z) (m : machine) : list store :=
  [ StAPB1ENR (u32 (Z.lor (RCC_APB1ENR m) (Z.lor pwr bkp)));
    StPWR_CR (u32 (Z.lor (PWR_CR m) dbp)) ].

(** ** Conditions on the hardware schedule *)

(** No interference window holds 2^31 ticks or more (some 24 days). *)
Definition short_window (e : interference) : Prop := (ticks e < 2 ^ 31)%N.

(** The countdown register stays in 0 .. scale*1000 - 1 and, with no tick
    in between, never reads higher than before. *)
Fixpoint countdown_ok (scale prev : Z) (s : schedule) : bool :=
  match s with
  | [] => true
  | e :: s' =>
      (0 <=? val e) && (val e <? scale * 1000)
      && ((0 <? ticks e)%N || (val e <=? prev))
      && countdown_ok scale (val e) s'
  end.

(** One loop pass of micros() is disturbed when a tick falls between its
    two reads of the counter. *)
Definition disturbed (e2 e3 : interference) : bool :=
  negb ((ticks e2 + ticks e3 =? 0)%N).

(** The tick period is longer than two passes of the loop: any six
    consecutive accesses (two passes of three reads) see at most one tick. *)
Fixpoint sparse_ticks (s : schedule) : bool :=
  match s with
  | [] => true
  | _ :: s' => (total_ticks (firstn 6 s) <=? 1)%N && sparse_ticks s'
  end.

(** A schedule in which every pass of the loop is hit by one tick. *)
Fixpoint storm (n : nat) : schedule :=
  match n with
  | O => []
  | S n' => mkInterference 0 5 :: mkInterference 1 4 :: mkInterference 0 3
              :: storm n'
  end.

(** Every pass recorded in [pre], three accesses each, was disturbed. *)
Fixpoint all_disturbed (pre : schedule) : bool :=
  match pre with
  | [] => true
  | _ :: e2 :: e3 :: rest => disturbed e2 e3 && all_disturbed rest
  | _ => false
  end.

(** Two consecutive windows never hold a whole rollover of the counter. *)
Definition no_alias (s : schedule) : Prop :=
  forall a x y b, s = a ++ x :: y :: b -> (ticks x + ticks y < 2 ^ 32)%N.

(** The scale factor is set, one period fits the register, and the
    countdown register is within the period. *)
Definition in_period (m : machine) : Prop :=
  0 < usTicks m /\ usTicks m * 1000 < 2 ^ 32
  /\ 0 <= SysTick_VAL m < usTicks m * 1000.

(** ** Sample machines and schedules *)

(** A board at reset with a 72 MHz system clock. *)
Definition boot : machine :=
  mkMachine 0 0 72000000 0 false false 0 0 (fun _ => 0) (fun _ => 0) [].

(** The same board once cycleCounterInit has run. *)
Definition up : machine := set_usTicks 72 boot.

(** One undisturbed pass, half way through a millisecond. *)
Definition calm : schedule :=
  [mkInterference 0 36100; mkInterference 0 36000; mkInterference 0 35900].

(** A pass hit by a tick between its two counter reads, then a calm one. *)
Definition racy : schedule :=
  [mkInterference 0 20; mkInterference 1 71990; mkInterference 0 71900;
   mkInterference 0 71800; mkInterference 0 71700; mkInterference 0 71600].

(** Two calls in a row, a tick before the first and none between them. *)
Definition two_calls : schedule :=
  [mkInterference 1 71000; mkInterference 0 70900; mkInterference 0 70800;
   mkInterference 0 50000; mkInterference 0 49900; mkInterference 0 49800].

(** Three calls of micros() at 500, 550 and 600 microseconds. *)
Definition waiting : schedule :=
  [mkInterference 0 36100; mkInterference 0 36000; mkInterference 0 35900;
   mkInterference 0 32500; mkInterference 0 32400; mkInterference 0 32300;
   mkInterference 0 28900; mkInterference 0 28800; mkInterference 0 28700].

(** Two calls of micros(), a little over one millisecond apart. *)
Definition one_ms : schedule :=
  [mkInterference 0 71100; mkInterference 0 71000; mkInterference 0 70900;
   mkInterference 1 70100; mkInterference 0 70000; mkInterference 0 69900].

(** ** Conditions for the elapsed-time properties *)

(** The countdown register reads within the period at every access. *)
Definition vals_in_period (scale : Z) (s : schedule) : Prop :=
  Forall (fun e => 0 <= val e < scale * 1000) s.

(** A machine and a schedule on which the clock is well behaved: the statics
    are in range, the scale factor is set, the register counts down within
    the period and reloads only at a tick, and the counter does not roll
    over while the schedule lasts. *)
Definition steady (m : machine) (s : schedule) : Prop :=
  wf m /\ in_period m
  /\ countdown_ok (usTicks m) (SysTick_VAL m) s = true
  /\ sysTickUptime m + Z.of_N (total_ticks s) < 2 ^ 32.

(** The initialised board just after a reload of the countdown register. *)
Definition running : machine := set_SysTick_VAL 71999 up.

(** The initialised board in the last millisecond before the counter rolls
    over. *)
Definition last_ms : machine := set_sysTickUptime (2 ^ 32 - 1) running.

(** Four calls of micros(): at 15 and 168 microseconds, then after a tick at
    1306 and 1445. *)
Definition stopwatch : schedule :=
  [mkInterference 0 71000; mkInterference 0 70900; mkInterference 0 70800;
   mkInterference 0 60000; mkInterference 0 59900; mkInterference 0 59800;
   mkInterference 1 50000; mkInterference 0 49900; mkInterference 0 49800;
   mkInterference 0 40000; mkInterference 0 39900; mkInterference 0 39800].

(** Two calls of micros() on either side of a tick. *)
Definition across : schedule :=
  [mkInterference 0 36100; mkInterference 0 36000; mkInterference 0 35900;
   mkInterference 1 71900; mkInterference 0 71800; mkInterference 0 71700].

(** One pass in which the register reads above usTicks * 1000, as it does
    with a system clock of 72.5 MHz. *)
Definition overrun : schedule :=
  [mkInterference 0 72499; mkInterference 0 72499; mkInterference 0 72498].

(** * Properties *)

(** ** Words *)

Lemma u32_range (x : Z) : 0 <= u32 x < 2 ^ 32.
Proof. unfold u32. apply Z.mod_pos_bound. lia. Qed.

Lemma u32_small (x : Z) : 0 <= x < 2 ^ 32 -> u32 x = x.
Proof. intros H. unfold u32. now apply Z.mod_small. Qed.

Lemma u64_small (x : Z) : 0 <= x < 2 ^ 64 -> u64 x = x.
Proof. intros H. unfold u64. now apply Z.mod_small. Qed.

Lemma u32_add_u32 (x y : Z) : u32 (u32 x + y) = u32 (x + y).
Proof. unfold u32. now rewrite Zplus_mod_idemp_l. Qed.

(** ** The tick counter under interference *)

Lemma handler_frame (m : machine) (n : N) :
  N.iter n SysTick_Handler m
  = set_sysTickUptime (sysTickUptime (N.iter n SysTick_Handler m)) m.
Proof.
  induction n as [|n IH] using N.peano_ind.
  - destruct m; reflexivity.
  - rewrite N.iter_succ. rewrite IH at 1. reflexivity.
Qed.

Lemma handler_count (m : machine) (n : N) :
  0 <= sysTickUptime m < 2 ^ 32 ->
  sysTickUptime (N.iter n SysTick_Handler m) = u32 (sysTickUptime m + Z.of_N n).
Proof.
  intros Hm. induction n as [|n IH] using N.peano_ind.
  - simpl. rewrite Z.add_0_r. symmetry. now apply u32_small.
  - rewrite N.iter_succ. unfold SysTick_Handler at 1. simpl.
    rewrite IH, u32_add_u32. f_equal. lia.
Qed.

Lemma interfere_frame (e : interference) (m : machine) :
  interfere e m
  = set_SysTick_VAL (val e)
      (set_sysTickUptime (sysTickUptime (N.iter (ticks e) SysTick_Handler m)) m).
Proof. unfold interfere. now rewrite handler_frame at 1. Qed.

Lemma interfere_count (e : interference) (m : machine) :
  0 <= sysTickUptime m < 2 ^ 32 ->
  sysTickUptime (interfere e m) = u32 (sysTickUptime m + Z.of_N (ticks e)).
Proof. intros Hm. rewrite interfere_frame. simpl. now apply handler_count. Qed.

Lemma interfere_val (e : interference) (m : machine) :
  SysTick_VAL (interfere e m) = val e.
Proof. reflexivity. Qed.

Lemma interfere_usTicks (e : interference) (m : machine) :
  usTicks (interfere e m) = usTicks m.
Proof. now rewrite interfere_frame. Qed.

Lemma interfere_wf (e : interference) (m : machine) : wf m -> wf (interfere e m).
Proof.
  intros [Hu Hc]. split.
  - now rewrite interfere_usTicks.
  - rewrite interfere_count by assumption. apply u32_range.
Qed.

Lemma run_app (a b : schedule) (m : machine) : run (a ++ b) m = run b (run a m).
Proof. unfold run. apply fold_left_app. Qed.

Lemma run_usTicks (es : schedule) (m : machine) : usTicks (run es m) = usTicks m.
Proof.
  revert m. induction es as [|e es IH]; intros m; simpl; [reflexivity|].
  fold (run es (interfere e m)). now rewrite IH, interfere_usTicks.
Qed.

Lemma run_wf (es : schedule) (m : machine) : wf m -> wf (run es m).
Proof.
  revert m. induction es as [|e es IH]; intros m Hm; simpl; [assumption|].
  apply IH. now apply interfere_wf.
Qed.

Lemma total_ticks_app (a b : schedule) :
  total_ticks (a ++ b) = (total_ticks a + total_ticks b)%N.
Proof. induction a as [|e a IH]; simpl; [reflexivity|]. rewrite IH. lia. Qed.

Lemma run_count (es : schedule) (m : machine) :
  0 <= sysTickUptime m < 2 ^ 32 ->
  sysTickUptime (run es m) = u32 (sysTickUptime m + Z.of_N (total_ticks es)).
Proof.
  revert m. induction es as [|e es IH]; intros m Hm; simpl.
  - rewrite Z.add_0_r. symmetry. now apply u32_small.
  - fold (run es (interfere e m)). rewrite IH.
    + rewrite interfere_count by assumption. rewrite u32_add_u32. f_equal. lia.
    + rewrite interfere_count by assumption. apply u32_range.
Qed.

(** The counter is a uint32_t whatever the hardware did. *)
Ltac counter_in_range := rewrite run_count by assumption; apply u32_range.

(** ** The sampling loop of micros() *)

Lemma micros_sample_pass (fuel : nat) (m : machine) (e1 e2 e3 : interference)
      (s : schedule) :
  micros_sample (S fuel) m (e1 :: e2 :: e3 :: s)
  = if negb (sysTickUptime (run [e1] m) =? sysTickUptime (run [e1; e2; e3] m))
    then micros_sample fuel (run [e1; e2; e3] m) s
    else Ret (sysTickUptime (run [e1] m), SysTick_VAL (run [e1; e2] m))
             (run [e1; e2; e3] m) s.
Proof.
  simpl. unfold bind, vread. simpl.
  destruct (negb _); reflexivity.
Qed.

Lemma micros_sample_short (fuel : nat) (m : machine) (s : schedule) :
  (length s < 3)%nat -> micros_sample fuel m s = Busy.
Proof.
  intros H. destruct fuel as [|fuel]; [reflexivity|].
  destruct s as [|e1 [|e2 [|e3 s]]]; simpl in H; try lia; reflexivity.
Qed.

Lemma micros_sample_inv (fuel : nat) :
  forall m s ms c m' s',
    micros_sample fuel m s = Ret (ms, c) m' s' ->
    exists pre e1 e2 e3,
      s = pre ++ e1 :: e2 :: e3 :: s'
      /\ ms = sysTickUptime (run (pre ++ [e1]) m)
      /\ c = SysTick_VAL (run (pre ++ [e1; e2]) m)
      /\ m' = run (pre ++ [e1; e2; e3]) m
      /\ sysTickUptime m' = ms.
Proof.
  induction fuel as [|fuel IH]; intros m s ms c m' s' H.
  - discriminate H.
  - destruct s as [|e1 [|e2 [|e3 s3]]]; try discriminate H.
    rewrite micros_sample_pass in H.
    destruct (Z.eqb_spec (sysTickUptime (run [e1] m))
                         (sysTickUptime (run [e1; e2; e3] m))) as [Heq|Hne];
      simpl negb in H; cbv iota in H.
    + injection H as <- <- <- <-.
      exists [], e1, e2, e3. simpl app. repeat split; auto.
    + apply IH in H. destruct H as (pre & a1 & a2 & a3 & Hs & Hms & Hc & Hm & Hk).
      exists (e1 :: e2 :: e3 :: pre), a1, a2, a3.
      subst s3. repeat split; auto.
Qed.

Lemma micros_sample_outcome (fuel : nat) :
  forall m s, micros_sample fuel m s = Busy
              \/ exists p m' s', micros_sample fuel m s = Ret p m' s'.
Proof.
  induction fuel as [|fuel IH]; intros m s.
  - now left.
  - destruct s as [|e1 [|e2 [|e3 s3]]]; try (now left).
    rewrite micros_sample_pass. destruct (negb _).
    + apply IH.
    + right. eauto.
Qed.

Lemma micros_sample_fuel (f1 : nat) :
  forall f2 m s, (length s <= f1)%nat -> (length s <= f2)%nat ->
                 micros_sample f1 m s = micros_sample f2 m s.
Proof.
  induction f1 as [|f1 IH]; intros f2 m s H1 H2.
  - destruct s; simpl in H1; [|lia]. destruct f2; reflexivity.
  - destruct f2 as [|f2].
    + destruct s; simpl in H2; [|lia]. reflexivity.
    + destruct s as [|e1 [|e2 [|e3 s3]]]; try reflexivity.
      rewrite !micros_sample_pass. destruct (negb _); [|reflexivity].
      apply IH; simpl in H1, H2; lia.
Qed.

(** ** micros() *)

Lemma micros_inv (m : machine) (s : schedule) (v : Z) (m' : machine) (s' : schedule) :
  micros m s = Ret v m' s' ->
  exists ms c,
    micros_sample (length s) m s = Ret (ms, c) m' s'
    /\ usTicks m' <> 0
    /\ v = micros_value (usTicks m') ms c.
Proof.
  unfold micros, bind, get. intros H.
  destruct (micros_sample (length s) m s) as [[ms c] m1 s1| | |]; try discriminate H.
  destruct (Z.eqb_spec (usTicks m1) 0) as [Hz|Hnz]; [discriminate H|].
  unfold ret in H. injection H as <- <- <-. simpl. eauto.
Qed.

Lemma micros_intro (m : machine) (s : schedule) (ms c : Z) (m' : machine)
      (s' : schedule) :
  micros_sample (length s) m s = Ret (ms, c) m' s' ->
  usTicks m' <> 0 ->
  micros m s = Ret (micros_value (usTicks m') ms c) m' s'.
Proof.
  intros H Hu. unfold micros, bind, get. rewrite H.
  destruct (Z.eqb_spec (usTicks m') 0); [contradiction|reflexivity].
Qed.

(** A returning call consumed a multiple-of-three prefix of the schedule
    and left the machine as the hardware alone drove it. *)
Lemma micros_env_only (m : machine) (s : schedule) (v : Z) (m' : machine)
      (s' : schedule) :
  micros m s = Ret v m' s' ->
  exists pre, s = pre ++ s' /\ m' = run pre m /\ (3 <= length pre)%nat.
Proof.
  intros H. apply micros_inv in H. destruct H as (ms & c & H & _ & _).
  apply micros_sample_inv in H.
  destruct H as (pre & e1 & e2 & e3 & Hs & _ & _ & Hm & _).
  exists (pre ++ [e1; e2; e3]). rewrite <- app_assoc. simpl.
  repeat split; auto. rewrite length_app. simpl. lia.
Qed.

Lemma micros_value_exact (us ms c : Z) :
  0 < us -> us * 1000 < 2 ^ 32 -> 0 <= ms < 2 ^ 32 ->
  micros_value us ms c = ms * 1000 + u32 (us * 1000 - c) / us.
Proof.
  intros Hus Hk Hms. unfold micros_value.
  rewrite (u32_small (us * 1000)) by lia.
  pose proof (u32_range (us * 1000 - c)) as Hd.
  set (d := u32 (us * 1000 - c)) in *.
  assert (Hq : 0 <= d / us < 2 ^ 32).
  { split; [apply Z.div_pos; lia|].
    apply Z.div_lt_upper_bound; [lia|]. nia. }
  rewrite (u64_small ms) by lia.
  rewrite (u64_small (ms * 1000)) by lia.
  rewrite (u64_small (d / us)) by lia.
  apply u64_small. lia.
Qed.

Lemma micros_value_spec (us ms c : Z) :
  0 < us -> us * 1000 < 2 ^ 32 -> 0 <= ms < 2 ^ 32 -> 0 <= c <= us * 1000 ->
  micros_value us ms c = micros_spec us ms c.
Proof.
  intros Hus Hk Hms Hc. rewrite micros_value_exact by assumption.
  unfold micros_spec. now rewrite u32_small by lia.
Qed.

Lemma micros_value_bound (us ms c : Z) :
  0 < us < 2 ^ 32 -> 0 <= ms < 2 ^ 32 ->
  0 <= micros_value us ms c < 2 ^ 43.
Proof.
  intros Hus Hms. unfold micros_value.
  pose proof (u32_range (u32 (us * 1000) - c)) as Hd.
  set (d := u32 (u32 (us * 1000) - c)) in *.
  assert (Hq : 0 <= d / us < 2 ^ 32).
  { split; [apply Z.div_pos; lia|].
    apply Z.div_lt_upper_bound; [lia|]. nia. }
  rewrite (u64_small ms) by lia.
  rewrite (u64_small (ms * 1000)) by lia.
  rewrite (u64_small (d / us)) by lia.
  rewrite u64_small; lia.
Qed.

Lemma cycleCounterInit_scale (m : machine) (s : schedule) :
  0 <= SYSCLK_Frequency m < 2 ^ 32 ->
  cycleCounterInit m s
  = Ret tt (set_usTicks (SYSCLK_Frequency m / 1000000) m) s.
Proof.
  intros Hf. unfold cycleCounterInit, bind, get, modify.
  rewrite (u32_small (SYSCLK_Frequency m)) by assumption.
  rewrite u32_small; [reflexivity|].
  split; [apply Z.div_pos; lia|].
  apply Z.div_lt_upper_bound; lia.
Qed.

(** C1. A call of micros() that returns, on a machine whose scale factor
    was set by cycleCounterInit to SYSCLK_Frequency / 1000000, returns
    ms * 1000 + (usTicks * 1000 - cycle_cnt) / usTicks for the tick counter
    [ms] and the countdown register [cycle_cnt] it sampled in its last pass.
    The subtraction is the uint32_t one of the code; nothing else wraps, and
    with the register within the period (cycle_cnt <= usTicks * 1000) the
    value is the formula over the integers. *)
Theorem micros_formula :
  forall mb sb mi m s v m' s',
    0 <= SYSCLK_Frequency mb < 2 ^ 32 ->
    cycleCounterInit mb sb = Ret tt mi sb ->
    usTicks m = usTicks mi ->
    0 <= sysTickUptime m < 2 ^ 32 ->
    micros m s = Ret v m' s' ->
    usTicks m = SYSCLK_Frequency mb / 1000000
    /\ exists pre e1 e2 e3,
        s = pre ++ e1 :: e2 :: e3 :: s'
        /\ (let ms := sysTickUptime (run (pre ++ [e1]) m) in
            let cycle_cnt := SysTick_VAL (run (pre ++ [e1; e2]) m) in
            v = ms * 1000 + u32 (usTicks m * 1000 - cycle_cnt) / usTicks m
            /\ (0 <= cycle_cnt <= usTicks m * 1000 ->
                v = micros_spec (usTicks m) ms cycle_cnt)).
Proof.
  intros mb sb mi m s v m' s' Hf Hinit Hu Hc Hcall.
  rewrite cycleCounterInit_scale in Hinit by assumption.
  injection Hinit as <-. simpl in Hu.
  split; [assumption|].
  apply micros_inv in Hcall. destruct Hcall as (ms & c & Hs & Hnz & ->).
  apply micros_sample_inv in Hs.
  destruct Hs as (pre & e1 & e2 & e3 & -> & Hms & Hcc & Hm' & _).
  assert (Hu' : usTicks m' = usTicks m) by (subst m'; apply run_usTicks).
  rewrite Hu' in *.
  assert (Hq : 0 <= usTicks m < 4295).
  { rewrite Hu. split; [apply Z.div_pos; lia|].
    apply Z.div_lt_upper_bound; lia. }
  assert (Hr : 0 <= ms < 2 ^ 32).
  { subst ms. counter_in_range. }
  exists pre, e1, e2, e3. split; [reflexivity|].
  cbv zeta. rewrite <- Hms, <- Hcc. split.
  - apply micros_value_exact; lia.
  - intros Hin. apply micros_value_spec; lia.
Qed.

Lemma micros_formula_witness :
  usTicks up = SYSCLK_Frequency boot / 1000000
  /\ exists pre e1 e2 e3,
      calm = pre ++ e1 :: e2 :: e3 :: []
      /\ (let ms := sysTickUptime (run (pre ++ [e1]) up) in
          let cycle_cnt := SysTick_VAL (run (pre ++ [e1; e2]) up) in
          500 = ms * 1000 + u32 (usTicks up * 1000 - cycle_cnt) / usTicks up
          /\ (0 <= cycle_cnt <= usTicks up * 1000 ->
              500 = micros_spec (usTicks up) ms cycle_cnt)).
Proof.
  apply (micros_formula boot [] up up calm 500 (run calm up) []).
  - simpl. lia.
  - vm_compute; reflexivity.
  - vm_compute; reflexivity.
  - simpl. lia.
  - vm_compute; reflexivity.
Defined.

(** ** Torn reads *)

Lemma pass_test (m : machine) (e1 e2 e3 : interference) :
  0 <= sysTickUptime m < 2 ^ 32 ->
  (ticks e2 + ticks e3 < 2 ^ 32)%N ->
  negb (sysTickUptime (run [e1] m) =? sysTickUptime (run [e1; e2; e3] m))
  = disturbed e2 e3.
Proof.
  intros Hm Hn.
  change (run [e1; e2; e3] m) with (run [e2; e3] (run [e1] m)).
  assert (Hc : 0 <= sysTickUptime (run [e1] m) < 2 ^ 32).
  { counter_in_range. }
  rewrite (run_count [e2; e3]) by assumption.
  set (c := sysTickUptime (run [e1] m)) in *.
  simpl total_ticks. unfold disturbed. f_equal.
  destruct (Z.eqb_spec c (u32 (c + Z.of_N (ticks e2 + (ticks e3 + 0)))))
    as [He|He];
    destruct (N.eqb_spec (ticks e2 + ticks e3) 0) as [Hz|Hz];
    try reflexivity; exfalso; unfold u32 in He.
  - assert (Hk : 0 < Z.of_N (ticks e2 + (ticks e3 + 0)) < 2 ^ 32) by lia.
    revert He Hk Hc. generalize (Z.of_N (ticks e2 + (ticks e3 + 0))).
    intros k He Hk Hc.
    assert (Hcase : c + k < 2 ^ 32 \/ 2 ^ 32 <= c + k < 2 * 2 ^ 32) by lia.
    destruct Hcase as [Hlo|Hhi].
    + rewrite Z.mod_small in He by lia. lia.
    + replace (c + k) with ((c + k - 2 ^ 32) + 1 * 2 ^ 32) in He by lia.
      rewrite Z_mod_plus_full, Z.mod_small in He by lia. lia.
  - apply He. replace (ticks e2 + (ticks e3 + 0))%N with 0%N by lia.
    simpl. rewrite Z.add_0_r. symmetry. apply Z.mod_small. lia.
Qed.

Lemma short_no_alias (s : schedule) : Forall short_window s -> no_alias s.
Proof.
  intros H a x y b ->. rewrite Forall_forall in H.
  assert (Hx : short_window x) by (apply H, in_or_app; right; now left).
  assert (Hy : short_window y) by (apply H, in_or_app; right; right; now left).
  unfold short_window in *. lia.
Qed.

Lemma total_no_alias (s : schedule) :
  (total_ticks s < 2 ^ 32)%N -> no_alias s.
Proof.
  intros H a x y b ->. rewrite total_ticks_app in H. simpl in H. lia.
Qed.

Lemma no_alias_tail (a b : schedule) : no_alias (a ++ b) -> no_alias b.
Proof.
  intros H p x y q ->. apply (H (a ++ p) x y q). now rewrite <- app_assoc.
Qed.

Lemma micros_sample_first_quiet (fuel : nat) :
  forall m s ms c m' s',
    0 <= sysTickUptime m < 2 ^ 32 ->
    no_alias s ->
    micros_sample fuel m s = Ret (ms, c) m' s' ->
    exists pre e1 e2 e3,
      s = pre ++ e1 :: e2 :: e3 :: s'
      /\ all_disturbed pre = true
      /\ ticks e2 = 0%N /\ ticks e3 = 0%N
      /\ ms = sysTickUptime (run (pre ++ [e1; e2]) m)
      /\ c = SysTick_VAL (run (pre ++ [e1; e2]) m)
      /\ m' = run (pre ++ [e1; e2; e3]) m.
Proof.
  induction fuel as [|fuel IH]; intros m s ms c m' s' Hm Hna H.
  - discriminate H.
  - destruct s as [|e1 [|e2 [|e3 s3]]]; try discriminate H.
    rewrite micros_sample_pass in H.
    assert (Hn : (ticks e2 + ticks e3 < 2 ^ 32)%N)
      by (apply (Hna [e1] e2 e3 s3); reflexivity).
    rewrite pass_test in H by assumption.
    unfold disturbed in H.
    destruct (N.eqb_spec (ticks e2 + ticks e3) 0) as [Hz|Hz];
      simpl negb in H; cbv iota in H.
    + injection H as <- <- <- <-.
      exists [], e1, e2, e3. simpl app.
      assert (H2 : ticks e2 = 0%N) by lia.
      assert (H3 : ticks e3 = 0%N) by lia.
      repeat split; auto.
      change (sysTickUptime (run [e1] m)
              = sysTickUptime (interfere e2 (run [e1] m))).
      rewrite (interfere_count e2 (run [e1] m)), H2.
      * change (Z.of_N 0) with 0. rewrite Z.add_0_r. symmetry. apply u32_small.
        counter_in_range.
      * counter_in_range.
    + apply IH in H.
      * destruct H as (pre & a1 & a2 & a3 & Hs & Hd & H2 & H3 & Hms & Hc & Hm').
        exists (e1 :: e2 :: e3 :: pre), a1, a2, a3. subst s3.
        repeat split; auto.
        simpl. rewrite Hd. unfold disturbed.
        destruct (N.eqb_spec (ticks e2 + ticks e3) 0); [contradiction|reflexivity].
      * counter_in_range.
      * apply (no_alias_tail [e1; e2; e3]). exact Hna.
Qed.

(** Conversely the loop exits at the first undisturbed pass the schedule
    brings. *)
Lemma micros_sample_quiet_returns (fuel : nat) :
  forall m pre e1 e2 e3 rest,
    0 <= sysTickUptime m < 2 ^ 32 ->
    no_alias (pre ++ e1 :: e2 :: e3 :: rest) ->
    all_disturbed pre = true ->
    ticks e2 = 0%N -> ticks e3 = 0%N ->
    (length pre < fuel)%nat ->
    micros_sample fuel m (pre ++ e1 :: e2 :: e3 :: rest)
    = Ret (sysTickUptime (run (pre ++ [e1]) m),
           SysTick_VAL (run (pre ++ [e1; e2]) m))
          (run (pre ++ [e1; e2; e3]) m) rest.
Proof.
  induction fuel as [|fuel IH]; intros m pre e1 e2 e3 rest Hm Hna Hd H2 H3 Hf;
    [lia|].
  destruct pre as [|a [|b [|c pre]]]; try discriminate Hd.
  - simpl app. rewrite micros_sample_pass, pass_test; try assumption; [|lia].
    unfold disturbed. rewrite H2, H3. reflexivity.
  - simpl in Hd. apply andb_prop in Hd. destruct Hd as [Hbc Hd].
    change ((a :: b :: c :: pre) ++ e1 :: e2 :: e3 :: rest)
      with (a :: b :: c :: pre ++ e1 :: e2 :: e3 :: rest) in *.
    rewrite micros_sample_pass, pass_test; try assumption.
    + rewrite Hbc. cbv iota.
      rewrite IH; try assumption.
      * reflexivity.
      * counter_in_range.
      * apply (no_alias_tail [a; b; c]). exact Hna.
      * simpl in Hf. lia.
    + apply (Hna [a] b c (pre ++ e1 :: e2 :: e3 :: rest)). reflexivity.
Qed.

(** A window of exactly 2^32 ticks brings the counter back to where it was:
    the test of the loop cannot see it, hence the bound on the windows
    below. *)
Lemma rollover_aliases (m : machine) (e1 e3 : interference) (v : Z) :
  0 <= sysTickUptime m < 2 ^ 32 ->
  ticks e3 = 0%N ->
  sysTickUptime (run [e1; mkInterference (2 ^ 32) v; e3] m)
  = sysTickUptime (run [e1] m).
Proof.
  intros Hm H3.
  change (run [e1; mkInterference (2 ^ 32) v; e3] m)
    with (run [mkInterference (2 ^ 32) v; e3] (run [e1] m)).
  assert (Hc : 0 <= sysTickUptime (run [e1] m) < 2 ^ 32) by counter_in_range.
  rewrite (run_count [_; _]) by assumption.
  cbn [total_ticks fold_right ticks]. rewrite H3.
  change (Z.of_N (2 ^ 32 + (0 + 0))) with (1 * 2 ^ 32).
  unfold u32. rewrite Z_mod_plus_full. now apply Z.mod_small.
Qed.

(** C2. micros() never pairs a tick count with a countdown value from the
    other side of a tick.  Every pass it abandoned had a tick between its
    two reads of the counter; the pass it accepted had none, neither between
    the first counter read and the register read nor between the register
    read and the second counter read; and the value returned is the return
    expression on the counter and the register as they stood together at the
    instant the register was read. *)
Theorem micros_same_tick_window :
  forall m s v m' s',
    wf m ->
    Forall short_window s ->
    micros m s = Ret v m' s' ->
    exists pre e1 e2 e3,
      s = pre ++ e1 :: e2 :: e3 :: s'
      /\ all_disturbed pre = true
      /\ ticks e2 = 0%N /\ ticks e3 = 0%N
      /\ v = stamp (run (pre ++ [e1; e2]) m)
      /\ m' = run (pre ++ [e1; e2; e3]) m.
Proof.
  intros m s v m' s' [_ Hc] Hshort Hcall.
  apply micros_inv in Hcall. destruct Hcall as (ms & c & Hs & _ & ->).
  apply micros_sample_first_quiet in Hs;
    [|assumption|now apply short_no_alias].
  destruct Hs as (pre & e1 & e2 & e3 & -> & Hd & H2 & H3 & -> & -> & ->).
  exists pre, e1, e2, e3. repeat split; auto.
  unfold stamp. now rewrite !run_usTicks.
Qed.

Lemma micros_same_tick_window_witness :
  exists pre e1 e2 e3,
    racy = pre ++ e1 :: e2 :: e3 :: []
    /\ all_disturbed pre = true
    /\ ticks e2 = 0%N /\ ticks e3 = 0%N
    /\ 1004 = stamp (run (pre ++ [e1; e2]) up)
    /\ run racy up = run (pre ++ [e1; e2; e3]) up.
Proof.
  apply (micros_same_tick_window up racy 1004 (run racy up) []).
  - split; simpl; lia.
  - repeat constructor.
  - vm_compute; reflexivity.
Defined.

(** ** Monotonicity *)

Lemma interfere_keeps (m : machine) (e : interference) (r : schedule) :
  wf m -> in_period m ->
  countdown_ok (usTicks m) (SysTick_VAL m) (e :: r) = true ->
  sysTickUptime m + Z.of_N (total_ticks (e :: r)) < 2 ^ 32 ->
  wf (interfere e m) /\ in_period (interfere e m)
  /\ countdown_ok (usTicks (interfere e m)) (SysTick_VAL (interfere e m)) r = true
  /\ sysTickUptime (interfere e m) + Z.of_N (total_ticks r) < 2 ^ 32
  /\ stamp m <= stamp (interfere e m).
Proof.
  intros Hwf (Hu & Hk & Hv) Hok Hroll.
  pose proof Hwf as [_ Hc].
  simpl in Hok, Hroll.
  apply andb_prop in Hok. destruct Hok as [Hok Hrest].
  apply andb_prop in Hok. destruct Hok as [Hok Hdown].
  apply andb_prop in Hok. destruct Hok as [Hlo Hhi].
  apply Z.leb_le in Hlo. apply Z.ltb_lt in Hhi.
  assert (Hcnt : sysTickUptime (interfere e m)
                 = sysTickUptime m + Z.of_N (ticks e)).
  { rewrite interfere_count by assumption. apply u32_small. lia. }
  split; [now apply interfere_wf|].
  split; [unfold in_period; rewrite interfere_usTicks, interfere_val; lia|].
  split; [rewrite interfere_usTicks, interfere_val; exact Hrest|].
  split; [rewrite Hcnt; lia|].
  unfold stamp. rewrite interfere_usTicks, interfere_val, Hcnt.
  rewrite !micros_value_spec by lia. unfold micros_spec.
  set (U := usTicks m) in *. set (c := sysTickUptime m) in *.
  set (V := SysTick_VAL m) in *.
  assert (Hold : 0 <= (U * 1000 - V) / U <= 1000).
  { split; [apply Z.div_pos; lia|]. apply Z.div_le_upper_bound; lia. }
  assert (Hnew : 0 <= (U * 1000 - val e) / U) by (apply Z.div_pos; lia).
  apply orb_prop in Hdown. destruct Hdown as [Htick|Hsame].
  - apply N.ltb_lt in Htick. lia.
  - apply Z.leb_le in Hsame.
    assert ((U * 1000 - V) / U <= (U * 1000 - val e) / U)
      by (apply Z.div_le_mono; lia).
    lia.
Qed.

Lemma run_keeps (a : schedule) :
  forall m b,
    wf m -> in_period m ->
    countdown_ok (usTicks m) (SysTick_VAL m) (a ++ b) = true ->
    sysTickUptime m + Z.of_N (total_ticks (a ++ b)) < 2 ^ 32 ->
    wf (run a m) /\ in_period (run a m)
    /\ countdown_ok (usTicks (run a m)) (SysTick_VAL (run a m)) b = true
    /\ sysTickUptime (run a m) + Z.of_N (total_ticks b) < 2 ^ 32
    /\ stamp m <= stamp (run a m).
Proof.
  induction a as [|e a IH]; intros m b Hwf Hp Hok Hroll.
  - simpl in *. repeat split; try assumption; try apply Hwf; try apply Hp. lia.
  - rewrite <- app_comm_cons in Hok, Hroll.
    destruct (interfere_keeps m e (a ++ b) Hwf Hp Hok Hroll)
      as (Hwf1 & Hp1 & Hok1 & Hroll1 & Hle1).
    destruct (IH (interfere e m) b Hwf1 Hp1 Hok1 Hroll1)
      as (Hwf2 & Hp2 & Hok2 & Hroll2 & Hle2).
    change (run (e :: a) m) with (run a (interfere e m)).
    repeat split; try assumption; try apply Hwf2; try apply Hp2. lia.
Qed.

(** C3. Of two successive calls of micros() the second never returns less
    than the first, as long as the 32-bit tick counter does not roll over and
    the countdown register stays in 0 .. usTicks*1000 - 1, counting down
    within a tick window and reloading only at a tick.  Calls with no tick
    between them (same counter value, register lower or equal) are the case
    of zero ticks in the windows between the two samples. *)
Theorem micros_monotonic :
  forall m s v1 m1 s1 v2 m2 s2,
    wf m -> in_period m ->
    countdown_ok (usTicks m) (SysTick_VAL m) s = true ->
    sysTickUptime m + Z.of_N (total_ticks s) < 2 ^ 32 ->
    micros m s = Ret v1 m1 s1 ->
    micros m1 s1 = Ret v2 m2 s2 ->
    v1 <= v2.
Proof.
  intros m s v1 m1 s1 v2 m2 s2 Hwf Hp Hok Hroll Hc1 Hc2.
  pose proof Hwf as [_ Hc].
  assert (Hna : no_alias s) by (apply total_no_alias; lia).
  apply micros_inv in Hc1. destruct Hc1 as (ms1 & c1 & Hs1 & _ & ->).
  apply micros_sample_first_quiet in Hs1; [|assumption|assumption].
  destruct Hs1 as (pre1 & e1 & e2 & e3 & Hs & _ & _ & _ & -> & -> & Hm1).
  assert (Hsplit : s = (pre1 ++ [e1; e2]) ++ e3 :: s1).
  { rewrite Hs, <- app_assoc. reflexivity. }
  assert (Hm1' : m1 = run [e3] (run (pre1 ++ [e1; e2]) m)).
  { rewrite Hm1, <- run_app, <- app_assoc. reflexivity. }
  rewrite Hsplit in Hok, Hroll, Hna.
  destruct (run_keeps (pre1 ++ [e1; e2]) m (e3 :: s1) Hwf Hp Hok Hroll)
    as (HwfA & HpA & HokA & HrollA & _).
  set (snap1 := run (pre1 ++ [e1; e2]) m) in *.
  assert (Hu1 : usTicks m1 = usTicks snap1) by (rewrite Hm1'; apply run_usTicks).
  change (micros_value (usTicks m1) (sysTickUptime snap1) (SysTick_VAL snap1)
          <= v2).
  rewrite Hu1. fold (stamp snap1).
  destruct (run_keeps [e3] snap1 s1 HwfA HpA HokA HrollA)
    as (HwfB & HpB & HokB & HrollB & _).
  rewrite <- Hm1' in HwfB, HpB, HokB, HrollB.
  apply micros_inv in Hc2. destruct Hc2 as (ms2 & c2 & Hs2 & _ & ->).
  apply micros_sample_first_quiet in Hs2;
    [|apply HwfB|apply (no_alias_tail [e3]), (no_alias_tail _ _ Hna)].
  destruct Hs2 as (pre2 & a1 & a2 & a3 & Hs' & _ & _ & _ & -> & -> & Hm2).
  assert (Hu2 : usTicks m2 = usTicks (run (pre2 ++ [a1; a2]) m1)).
  { rewrite Hm2, !run_usTicks. reflexivity. }
  rewrite Hu2. fold (stamp (run (pre2 ++ [a1; a2]) m1)).
  rewrite Hm1', <- run_app.
  assert (Hrest : e3 :: s1 = ([e3] ++ pre2 ++ [a1; a2]) ++ a3 :: s2).
  { rewrite Hs'. simpl. rewrite <- app_assoc. reflexivity. }
  rewrite Hrest in HokA, HrollA.
  apply (run_keeps ([e3] ++ pre2 ++ [a1; a2]) snap1 (a3 :: s2) HwfA HpA HokA HrollA).
Qed.

Lemma micros_monotonic_witness :
  micros up two_calls
  = Ret 1015 (run (firstn 3 two_calls) up) (skipn 3 two_calls)
  /\ micros (run (firstn 3 two_calls) up) (skipn 3 two_calls)
     = Ret 1306 (run two_calls up) []
  /\ 1015 <= 1306.
Proof.
  assert (H1 : micros up two_calls
               = Ret 1015 (run (firstn 3 two_calls) up) (skipn 3 two_calls))
    by (vm_compute; reflexivity).
  assert (H2 : micros (run (firstn 3 two_calls) up) (skipn 3 two_calls)
               = Ret 1306 (run two_calls up) [])
    by (vm_compute; reflexivity).
  split; [exact H1|]. split; [exact H2|].
  apply (micros_monotonic up two_calls
           1015 (run (firstn 3 two_calls) up) (skipn 3 two_calls)
           1306 (run two_calls up) []).
  - split; simpl; lia.
  - unfold in_period. simpl. lia.
  - vm_compute; reflexivity.
  - simpl. lia.
  - exact H1.
  - exact H2.
Defined.

(** ** Termination of the sampling loop *)

Lemma storm_never_returns (n : nat) :
  forall fuel m, 0 <= sysTickUptime m < 2 ^ 32 ->
                 micros_sample fuel m (storm n) = Busy.
Proof.
  induction n as [|n IH]; intros fuel m Hm.
  - destruct fuel; reflexivity.
  - destruct fuel as [|fuel]; [reflexivity|].
    simpl storm. rewrite micros_sample_pass.
    rewrite pass_test by (try assumption; simpl; lia).
    simpl disturbed. cbv iota. apply IH.
    counter_in_range.
Qed.

(** With one tick in every pass the loop is still running at the end of
    any schedule, however long: a bound on the ticks per pass is not enough
    for the loop to exit. *)
Lemma micros_storm_busy (n : nat) (m : machine) :
  0 <= sysTickUptime m < 2 ^ 32 -> micros m (storm n) = Busy.
Proof.
  intros Hm. unfold micros, bind. now rewrite storm_never_returns.
Qed.

(** C4. When the tick period is longer than two passes of the loop (any six
    consecutive accesses see at most one tick), the do/while of micros()
    exits within two passes, and with the scale factor set micros() returns
    a value, having made at most six accesses. *)
Theorem micros_returns :
  forall m s,
    wf m -> usTicks m <> 0 ->
    sparse_ticks s = true ->
    (6 <= length s)%nat ->
    exists v m' s',
      micros m s = Ret v m' s' /\ (length s <= length s' + 6)%nat.
Proof.
  intros m s [_ Hc] Hu Hsp Hlen.
  destruct s as [|e1 [|e2 [|e3 [|e4 [|e5 [|e6 r]]]]]]; simpl in Hlen; try lia.
  simpl in Hsp. apply andb_prop in Hsp. destruct Hsp as [Hsum _].
  apply N.leb_le in Hsum.
  assert (H23 : (ticks e2 + ticks e3 < 2 ^ 32)%N) by lia.
  assert (H56 : (ticks e5 + ticks e6 < 2 ^ 32)%N) by lia.
  destruct (N.eqb_spec (ticks e2 + ticks e3) 0) as [Hq|Hd].
  - eexists _, _, _. split.
    + apply micros_intro.
      * simpl length. rewrite micros_sample_pass, pass_test by assumption.
        unfold disturbed. rewrite Hq.
        change (negb (0 =? 0)%N) with false. cbv iota. reflexivity.
      * rewrite run_usTicks. exact Hu.
    + simpl. lia.
  - assert (Hc3 : 0 <= sysTickUptime (run [e1; e2; e3] m) < 2 ^ 32).
    { counter_in_range. }
    eexists _, _, _. split.
    + apply micros_intro.
      * simpl length. rewrite micros_sample_pass, pass_test by assumption.
        unfold disturbed at 1.
        destruct (N.eqb_spec (ticks e2 + ticks e3) 0) as [|_]; [contradiction|].
        simpl negb. cbv iota.
        rewrite micros_sample_pass, pass_test by assumption.
        unfold disturbed.
        replace (ticks e5 + ticks e6)%N with 0%N by lia.
        change (negb (0 =? 0)%N) with false. cbv iota. reflexivity.
      * rewrite !run_usTicks. exact Hu.
    + simpl. lia.
Qed.

Lemma micros_returns_witness :
  exists v m' s',
    micros up racy = Ret v m' s' /\ (length racy <= length s' + 6)%nat.
Proof.
  apply (micros_returns up racy).
  - split; simpl; lia.
  - simpl. lia.
  - vm_compute; reflexivity.
  - simpl. lia.
Defined.

(** ** millis() *)

(** C5. Each run of SysTick_Handler adds exactly one to the 32-bit counter,
    wrapping modulo 2^32, and touches nothing else; from a counter of zero,
    after [n] runs the counter holds n mod 2^32; and millis() returns the
    number of ticks delivered so far modulo 2^32 with one read, leaving the
    machine as the hardware alone drove it. *)
Theorem millis_counts_ticks :
  forall m past e s,
    sysTickUptime m = 0 ->
    (forall m0, SysTick_Handler m0
                = set_sysTickUptime ((sysTickUptime m0 + 1) mod 2 ^ 32) m0)
    /\ (forall n, sysTickUptime (N.iter n SysTick_Handler m)
                  = Z.of_N n mod 2 ^ 32)
    /\ millis (run past m) (e :: s)
       = Ret (Z.of_N (total_ticks (past ++ [e])) mod 2 ^ 32)
             (run (past ++ [e]) m) s.
Proof.
  intros m past e s H0.
  assert (Hc : 0 <= sysTickUptime m < 2 ^ 32) by (rewrite H0; lia).
  split; [reflexivity|]. split.
  - intros n. rewrite handler_count by assumption. rewrite H0. reflexivity.
  - unfold millis, vread. cbv zeta.
    change (interfere e (run past m)) with (run [e] (run past m)).
    rewrite <- run_app, run_count by assumption. rewrite H0. reflexivity.
Qed.

Lemma millis_counts_ticks_witness :
  (forall m0, SysTick_Handler m0
              = set_sysTickUptime ((sysTickUptime m0 + 1) mod 2 ^ 32) m0)
  /\ (forall n, sysTickUptime (N.iter n SysTick_Handler boot)
                = Z.of_N n mod 2 ^ 32)
  /\ millis (run racy boot) [mkInterference 2 100]
     = Ret (Z.of_N (total_ticks (racy ++ [mkInterference 2 100])) mod 2 ^ 32)
           (run (racy ++ [mkInterference 2 100]) boot) [].
Proof.
  apply (millis_counts_ticks boot racy (mkInterference 2 100) []).
  vm_compute; reflexivity.
Defined.

(** ** Busy-wait delays *)

Lemma micros_range (m : machine) (s : schedule) (v : Z) (m' : machine)
      (s' : schedule) :
  wf m -> micros m s = Ret v m' s' -> 0 <= v < 2 ^ 43.
Proof.
  intros [Hu Hc] H. apply micros_inv in H. destruct H as (ms & c & Hs & Hnz & ->).
  apply micros_sample_inv in Hs.
  destruct Hs as (pre & e1 & e2 & e3 & _ & -> & _ & -> & _).
  rewrite run_usTicks in *. apply micros_value_bound; [lia|].
  counter_in_range.
Qed.

Lemma micros_calls_env_only (k : nat) :
  forall m s t m' s',
    micros_calls k m s = Ret t m' s' ->
    exists pre, s = pre ++ s' /\ m' = run pre m /\ (k < length pre)%nat.
Proof.
  induction k as [|k IH]; intros m s t m' s' H; simpl in H.
  - apply micros_env_only in H. destruct H as (pre & Hs & Hm & Hl).
    exists pre. repeat split; auto. lia.
  - unfold bind in H.
    destruct (micros m s) as [t0 m1 s1| | |] eqn:E; try discriminate H.
    apply micros_env_only in E. destruct E as (p0 & -> & -> & Hl0).
    apply IH in H. destruct H as (p1 & -> & -> & Hl1).
    exists (p0 ++ p1). rewrite <- app_assoc, run_app, length_app.
    repeat split; auto. lia.
Qed.

Lemma spin_inv (fuel : nat) :
  forall d m s m' s',
    spin fuel d m s = Ret tt m' s' ->
    exists k t,
      micros_calls k m s = Ret t m' s'
      /\ d <= t
      /\ forall j, (j < k)%nat ->
                   exists tj mj sj, micros_calls j m s = Ret tj mj sj /\ tj < d.
Proof.
  induction fuel as [|fuel IH]; intros d m s m' s' H; simpl in H.
  - discriminate H.
  - unfold bind in H.
    destruct (micros m s) as [t0 m1 s1| | |] eqn:E; try discriminate H.
    destruct (Z.ltb_spec t0 d) as [Hlt|Hge].
    + apply IH in H. destruct H as (k & t & Hk & Hd & Hearly).
      exists (S k), t. simpl. unfold bind. rewrite E. repeat split; auto.
      intros [|j] Hj.
      * exists t0, m1, s1. simpl. auto.
      * destruct (Hearly j) as (tj & mj & sj & Hc & Hlt'); [lia|].
        exists tj, mj, sj. simpl. unfold bind. rewrite E. auto.
    + unfold ret in H. injection H as <- <-.
      exists O, t0. simpl. repeat split; auto. intros j Hj. lia.
Qed.

Lemma spin_intro (k : nat) :
  forall fuel d m s t m' s',
    (k < fuel)%nat ->
    micros_calls k m s = Ret t m' s' ->
    d <= t ->
    (forall j, (j < k)%nat ->
               exists tj mj sj, micros_calls j m s = Ret tj mj sj /\ tj < d) ->
    spin fuel d m s = Ret tt m' s'.
Proof.
  induction k as [|k IH]; intros fuel d m s t m' s' Hf Hk Hd Hearly;
    destruct fuel as [|fuel]; try lia; simpl in Hk |- *; unfold bind in *.
  - rewrite Hk. destruct (Z.ltb_spec t d); [lia|reflexivity].
  - destruct (micros m s) as [t0 m1 s1| | |] eqn:E; try discriminate Hk.
    destruct (Hearly O) as (t0' & m0' & s0' & H0 & Hlt0); [lia|].
    simpl in H0. rewrite E in H0. injection H0 as <- <- <-.
    destruct (Z.ltb_spec t0 d); [|lia].
    apply (IH fuel d m1 s1 t m' s'); auto; [lia|].
    intros j Hj. destruct (Hearly (S j)) as (tj & mj & sj & Hc & Hlt'); [lia|].
    simpl in Hc. unfold bind in Hc. rewrite E in Hc. eauto.
Qed.

(** C6. delayMicroseconds(us) calls micros() once for a start value and
    then polls it, returning at the first poll that is no less than
    start + us: every earlier poll was below start + us, the last one has
    advanced by at least us, and the machine is left as the hardware alone
    drove it during the polls.  Conversely a schedule that brings such a poll
    makes the call return there. *)
Theorem delayMicroseconds_waits :
  forall us m s m' s',
    wf m -> 0 <= us < 2 ^ 32 ->
    (delayMicroseconds us m s = Ret tt m' s' <->
     exists start m0 s0 k t,
       micros m s = Ret start m0 s0
       /\ micros_calls k m0 s0 = Ret t m' s'
       /\ start + us <= t
       /\ forall j, (j < k)%nat ->
                    exists tj mj sj,
                      micros_calls j m0 s0 = Ret tj mj sj /\ tj < start + us)
    /\ (delayMicroseconds us m s = Ret tt m' s' ->
        exists pre, s = pre ++ s' /\ m' = run pre m).
Proof.
  intros us m s m' s' Hwf Hus.
  assert (Hdead : forall start m0 s0,
             micros m s = Ret start m0 s0 -> u64 (start + us) = start + us).
  { intros start m0 s0 E. apply (micros_range m s start m0 s0 Hwf) in E.
    apply u64_small. lia. }
  assert (Hfwd : delayMicroseconds us m s = Ret tt m' s' ->
                 exists start m0 s0 k t,
                   micros m s = Ret start m0 s0
                   /\ micros_calls k m0 s0 = Ret t m' s'
                   /\ start + us <= t
                   /\ forall j, (j < k)%nat ->
                                exists tj mj sj,
                                  micros_calls j m0 s0 = Ret tj mj sj
                                  /\ tj < start + us).
  { unfold delayMicroseconds, bind. intros H.
    destruct (micros m s) as [start m0 s0| | |] eqn:E; try discriminate H.
    rewrite (Hdead start m0 s0 eq_refl) in H.
    apply spin_inv in H. destruct H as (k & t & Hk & Hd & Hearly).
    exists start, m0, s0, k, t. auto. }
  split; [split; [exact Hfwd|]|].
  - intros (start & m0 & s0 & k & t & E & Hk & Hd & Hearly).
    unfold delayMicroseconds, bind. rewrite E.
    rewrite (Hdead start m0 s0 E).
    apply (spin_intro k (length s) (start + us) m0 s0 t m' s'); auto.
    apply micros_env_only in E. destruct E as (p0 & -> & _ & _).
    apply micros_calls_env_only in Hk. destruct Hk as (p1 & -> & _ & Hl).
    rewrite !length_app. lia.
  - intros H. apply Hfwd in H.
    destruct H as (start & m0 & s0 & k & t & E & Hk & _ & _).
    apply micros_env_only in E. destruct E as (p0 & -> & -> & _).
    apply micros_calls_env_only in Hk. destruct Hk as (p1 & -> & -> & _).
    exists (p0 ++ p1). now rewrite <- app_assoc, run_app.
Qed.

Lemma delayMicroseconds_waits_witness :
  exists start m0 s0 k t,
    micros up waiting = Ret start m0 s0
    /\ micros_calls k m0 s0 = Ret t (run waiting up) []
    /\ start + 100 <= t
    /\ forall j, (j < k)%nat ->
                 exists tj mj sj,
                   micros_calls j m0 s0 = Ret tj mj sj /\ tj < start + 100.
Proof.
  assert (Hwf : wf up) by (split; simpl; lia).
  assert (Hus : 0 <= 100 < 2 ^ 32) by lia.
  apply (proj1 (proj1 (delayMicroseconds_waits 100 up waiting (run waiting up) []
                         Hwf Hus))).
  vm_compute; reflexivity.
Defined.

Lemma delay_loop_spec (n : nat) :
  forall fuel ms m s,
    0 <= ms < 2 ^ 32 -> Z.to_nat ms = n -> (n < fuel)%nat ->
    delay_loop fuel ms m s = delay_spec n m s.
Proof.
  induction n as [|n IH]; intros fuel ms m s Hms Hn Hf;
    destruct fuel as [|fuel]; try lia; cbn [delay_loop delay_spec].
  - replace ms with 0 by lia. reflexivity.
  - destruct (Z.eqb_spec ms 0) as [->|Hnz]; [discriminate Hn|].
    unfold bind. destruct (delayMicroseconds 1000 m s); try reflexivity.
    apply IH; try lia; rewrite u32_small; lia.
Qed.

(** C7. delay(ms) is ms calls of delayMicroseconds(1000) in sequence and
    nothing else: the while (ms--) loop of the code and the ms-fold sequence
    of the specification have the same outcome on every machine and
    schedule.  delay(0) returns at once without touching the machine or the
    schedule, and delay(1) is delayMicroseconds(1000). *)
Theorem delay_is_repeated_delayMicroseconds :
  forall ms m s,
    0 <= ms < 2 ^ 32 ->
    delay ms m s = delay_spec (Z.to_nat ms) m s
    /\ delay 0 m s = Ret tt m s
    /\ delay 1 m s = delayMicroseconds 1000 m s.
Proof.
  intros ms m s Hms. split; [|split].
  - unfold delay. apply delay_loop_spec; auto.
  - reflexivity.
  - unfold delay. rewrite delay_loop_spec with (n := 1%nat); try lia; auto.
    cbn [delay_spec]. unfold bind.
    destruct (delayMicroseconds 1000 m s) as [[] m1 s1| | |]; reflexivity.
Qed.

Lemma delay_is_repeated_delayMicroseconds_witness :
  delay 1 up one_ms = delay_spec (Z.to_nat 1) up one_ms
  /\ delay 0 up one_ms = Ret tt up one_ms
  /\ delay 1 up one_ms = delayMicroseconds 1000 up one_ms.
Proof.
  apply (delay_is_repeated_delayMicroseconds 1 up one_ms). lia.
Defined.

Example delay_one_ms : delay 1 up one_ms = Ret tt (run one_ms up) [].
Proof. vm_compute; reflexivity. Qed.

(** ** Backup register *)

Lemma lo_half (v : Z) : 0 <= v -> u16 (Z.land v 0xffff) = v mod 2 ^ 16.
Proof.
  intros Hv. change 0xffff with (Z.ones 16). rewrite Z.land_ones by lia.
  unfold u16. rewrite Z.mod_mod; lia.
Qed.

Lemma hi_half (v : Z) :
  0 <= v < 2 ^ 32 -> u16 (Z.shiftr (Z.land v 0xffff0000) 16) = v / 2 ^ 16.
Proof.
  intros Hv. rewrite Z.shiftr_land.
  change (Z.shiftr 0xffff0000 16) with (Z.ones 16).
  rewrite Z.land_ones, Z.shiftr_div_pow2 by lia.
  unfold u16. rewrite Z.mod_mod by lia. apply Z.mod_small.
  split; [apply Z.div_pos; lia|apply Z.div_lt_upper_bound; lia].
Qed.

Lemma lor_disjoint (lo k : Z) :
  0 <= lo < 2 ^ 16 -> Z.lor lo (k * 2 ^ 16) = lo + k * 2 ^ 16.
Proof.
  intros Hlo.
  assert (Hd : Z.land lo (k * 2 ^ 16) = 0).
  { apply Z.bits_inj'. intros n Hn. rewrite Z.land_spec, Z.bits_0.
    destruct (Z.ltb_spec n 16) as [Hlt|Hge].
    - rewrite Z.mul_pow2_bits_low by lia. apply andb_false_r.
    - rewrite <- (Z.mod_small lo (2 ^ 16)) by lia.
      rewrite Z.mod_pow2_bits_high by lia. reflexivity. }
  rewrite Z.add_nocarry_lxor by assumption. symmetry. now apply Z.lxor_lor.
Qed.

Lemma halves_join (v : Z) :
  0 <= v < 2 ^ 32 ->
  u32 (Z.lor (u16 (Z.land v 0xffff))
             (s32 (Z.shiftl (u16 (Z.shiftr (Z.land v 0xffff0000) 16)) 16)))
  = v.
Proof.
  intros Hv. rewrite lo_half, hi_half by lia.
  rewrite Z.shiftl_mul_pow2 by lia. unfold s32.
  rewrite (Z.mod_eq (v / 2 ^ 16 * 2 ^ 16 + 2 ^ 31)) by lia.
  set (q := (v / 2 ^ 16 * 2 ^ 16 + 2 ^ 31) / 2 ^ 32).
  replace (v / 2 ^ 16 * 2 ^ 16 + 2 ^ 31 - 2 ^ 32 * q - 2 ^ 31)
    with ((v / 2 ^ 16 - q * 2 ^ 16) * 2 ^ 16) by lia.
  rewrite lor_disjoint by (apply Z.mod_pos_bound; lia).
  pose proof (Z.div_mod v (2 ^ 16)) as Hdm.
  replace (v mod 2 ^ 16 + (v / 2 ^ 16 - q * 2 ^ 16) * 2 ^ 16)
    with (v + (- q) * 2 ^ 32) by lia.
  unfold u32. rewrite Z_mod_plus_full. apply Z.mod_small. lia.
Qed.

Lemma rccWriteBkpDr_run (pwr bkp dbp v : Z) (m : machine) (s : schedule) :
  exists m',
    rccWriteBkpDr pwr bkp dbp v m s = Ret tt m' s
    /\ bus m' = bus m ++ unlock_writes pwr bkp dbp m
    /\ BKP m' 0x04 = u16 (Z.land v 0xffff)
    /\ BKP m' 0x08 = u16 (Z.shiftr (Z.land v 0xffff0000) 16)
    /\ RAM m' = RAM m /\ led0 m' = led0 m /\ led1 m' = led1 m.
Proof.
  eexists. split; [reflexivity|].
  cbn [bus issue set_BKP set_PWR_CR set_RCC_APB1ENR PWR_CR RCC_APB1ENR BKP RAM
       led0 led1 unlock_writes].
  repeat split. rewrite <- !app_assoc. reflexivity.
Qed.

(** C10. Writing a 32-bit value with rccWriteBkpDr and reading it back with
    rccReadBkpDr returns the value: the writer leaves its low 16 bits in
    halfword 0x04 and its high 16 bits in halfword 0x08 of the backup region,
    and the reader joins the same two halfwords. *)
Theorem bkp_write_read :
  forall pwr bkp dbp v m s,
    0 <= v < 2 ^ 32 ->
    exists m',
      rccWriteBkpDr pwr bkp dbp v m s = Ret tt m' s
      /\ BKP m' 0x04 = v mod 2 ^ 16
      /\ BKP m' 0x08 = v / 2 ^ 16
      /\ rccReadBkpDr m' s = Ret v m' s
      /\ (rccWriteBkpDr pwr bkp dbp v ;; rccReadBkpDr) m s = Ret v m' s.
Proof.
  intros pwr bkp dbp v m s Hv.
  destruct (rccWriteBkpDr_run pwr bkp dbp v m s)
    as (m' & Hrun & _ & Hlo & Hhi & _).
  assert (Hread : rccReadBkpDr m' s = Ret v m' s).
  { unfold rccReadBkpDr, bind, get, ret. rewrite Hlo, Hhi.
    now rewrite halves_join. }
  exists m'. split; [exact Hrun|].
  split; [rewrite Hlo; apply lo_half; lia|].
  split; [rewrite Hhi; now apply hi_half|].
  split; [exact Hread|].
  unfold bind at 1. rewrite Hrun. exact Hread.
Qed.

Lemma bkp_write_read_witness :
  exists m',
    rccWriteBkpDr 0x10000000 0x08000000 0x100 0xCAFEF00D boot [] = Ret tt m' []
    /\ BKP m' 0x04 = 0xCAFEF00D mod 2 ^ 16
    /\ BKP m' 0x08 = 0xCAFEF00D / 2 ^ 16
    /\ rccReadBkpDr m' [] = Ret 0xCAFEF00D m' []
    /\ (rccWriteBkpDr 0x10000000 0x08000000 0x100 0xCAFEF00D ;; rccReadBkpDr)
         boot [] = Ret 0xCAFEF00D m' [].
Proof.
  apply (bkp_write_read 0x10000000 0x08000000 0x100 0xCAFEF00D boot []). lia.
Defined.

(** ** Reset and failure indication *)

Lemma write_AIRCR_resets (m : machine) (s : schedule) :
  write_AIRCR (u32 (Z.lor AIRCR_VECTKEY_MASK 0x04)) m s
  = Reboot (issue (StAIRCR 0x05FA0004) m).
Proof. reflexivity. Qed.

Lemma systemReset_run (pwr bkp dbp magic : Z) (toBootloader : bool)
      (m : machine) (s : schedule) :
  exists m1,
    systemReset pwr bkp dbp magic toBootloader m s = Reboot m1
    /\ bus m1 = bus m ++ unlock_writes pwr bkp dbp m ++ [StAIRCR 0x05FA0004]
    /\ led0 m1 = led0 m /\ led1 m1 = led1 m.
Proof.
  unfold systemReset.
  set (m0 := if toBootloader then set_RAM 0x20004FF0 0xDEADBEEF m else m).
  assert (H0 : (if toBootloader then store_RAM 0x20004FF0 0xDEADBEEF else ret tt)
                 m s = Ret tt m0 s) by (destruct toBootloader; reflexivity).
  destruct (rccWriteBkpDr_run pwr bkp dbp (u32 magic) m0 s)
    as (m' & Hrun & Hbus & _ & _ & _ & Hl0 & Hl1).
  exists (issue (StAIRCR 0x05FA0004) m'). split.
  - unfold bind. rewrite H0, Hrun. apply write_AIRCR_resets.
  - cbn [bus issue led0 led1]. rewrite Hbus, Hl0, Hl1.
    subst m0. destruct toBootloader; cbn; rewrite <- ?app_assoc; repeat split.
Qed.


(** C9. From any indicator state failureMode() turns LED1 off and LED0 on,
    so that exactly one indicator is asserted when it calls
    systemReset(false); the indicators are still in that state when the core
    resets, and the call ends in the reset, not in a return. *)
Theorem failureMode_indicators :
  forall pwr bkp dbp magic m s,
    exists m1 m2,
      (LED1_OFF ;; LED0_ON) m s = Ret tt m1 s
      /\ led0 m1 = true /\ led1 m1 = false
      /\ xorb (led0 m1) (led1 m1) = true
      /\ failureMode pwr bkp dbp magic m s
         = systemReset pwr bkp dbp magic false m1 s
      /\ failureMode pwr bkp dbp magic m s = Reboot m2
      /\ led0 m2 = true /\ led1 m2 = false.
Proof.
  intros pwr bkp dbp magic m s.
  set (m1 := issue (StLED LED0 true)
                   (set_led LED0 true
                      (issue (StLED LED1 false) (set_led LED1 false m)))).
  destruct (systemReset_run pwr bkp dbp magic false m1 s)
    as (m2 & Hrun & _ & Hl0 & Hl1).
  exists m1, m2.
  assert (Hcall : failureMode pwr bkp dbp magic m s
                  = systemReset pwr bkp dbp magic false m1 s) by reflexivity.
  split; [reflexivity|].
  split; [reflexivity|]. split; [reflexivity|]. split; [reflexivity|].
  split; [exact Hcall|].
  split; [rewrite Hcall; exact Hrun|].
  split; [rewrite Hl0; reflexivity|].
  rewrite Hl1. reflexivity.
Qed.

(** ** Concrete runs *)

Example micros_calm : micros up calm = Ret 500 (run calm up) [].
Proof. vm_compute; reflexivity. Qed.

Example micros_racy : micros up racy = Ret 1004 (run racy up) [].
Proof. vm_compute; reflexivity. Qed.

Example micros_cut_short : micros up (firstn 2 calm) = Busy.
Proof. vm_compute; reflexivity. Qed.

Example millis_after_racy :
  millis (run racy up) [mkInterference 0 71500]
  = Ret 1 (run (racy ++ [mkInterference 0 71500]) up) [].
Proof. vm_compute; reflexivity. Qed.

Example delayMicroseconds_waiting :
  delayMicroseconds 100 up waiting = Ret tt (run waiting up) [].
Proof. vm_compute; reflexivity. Qed.

Example delayMicroseconds_cut_short :
  delayMicroseconds 100 up (firstn 6 waiting) = Busy.
Proof. vm_compute; reflexivity. Qed.

Example systemReset_to_bootloader :
  match systemReset 0x10000000 0x08000000 0x100 0x50F7B007 true up [] with
  | Reboot m => bus m
  | _ => []
  end
  = [StAPB1ENR 0x18000000; StPWR_CR 0x100; StAIRCR 0x05FA0004].
Proof. vm_compute; reflexivity. Qed.

Example failureMode_from_both_lit :
  match failureMode 0x10000000 0x08000000 0x100 0x50F7B007
                    (set_led LED1 true (set_led LED0 true up)) [] with
  | Reboot m => (led0 m, led1 m)
  | _ => (false, false)
  end
  = (true, false).
Proof. vm_compute; reflexivity. Qed.

(** * Further properties of the timebase *)

Lemma steady_run (a b : schedule) (m : machine) :
  steady m (a ++ b) -> steady (run a m) b /\ stamp m <= stamp (run a m).
Proof.
  intros (Hwf & Hp & Hok & Hroll).
  destruct (run_keeps a m b Hwf Hp Hok Hroll) as (H1 & H2 & H3 & H4 & H5).
  unfold steady. auto.
Qed.

(** The value micros() returns lies between what the clock showed when the
    call began and what it shows when the call ends. *)
Lemma micros_sandwich (m : machine) (s : schedule) (v : Z) (m' : machine)
      (s' : schedule) :
  steady m s -> micros m s = Ret v m' s' ->
  stamp m <= v /\ v <= stamp m' /\ steady m' s'.
Proof.
  intros Hst Hcall. pose proof Hst as (Hwf & _ & _ & Hroll).
  pose proof Hwf as [_ Hc].
  assert (Hna : no_alias s) by (apply total_no_alias; lia).
  apply micros_inv in Hcall. destruct Hcall as (ms & c & Hs & _ & ->).
  apply micros_sample_first_quiet in Hs; [|assumption|assumption].
  destruct Hs as (pre & e1 & e2 & e3 & Hs & _ & _ & _ & -> & -> & Hm').
  assert (Hsplit : s = (pre ++ [e1; e2]) ++ e3 :: s').
  { rewrite Hs, <- app_assoc. reflexivity. }
  assert (Hm1 : m' = run [e3] (run (pre ++ [e1; e2]) m)).
  { rewrite Hm', <- run_app, <- app_assoc. reflexivity. }
  rewrite Hsplit in Hst.
  destruct (steady_run (pre ++ [e1; e2]) (e3 :: s') m Hst) as (HstA & HleA).
  destruct (steady_run [e3] s' (run (pre ++ [e1; e2]) m) HstA) as (HstB & HleB).
  rewrite <- Hm1 in HstB, HleB.
  assert (Hu : usTicks m' = usTicks (run (pre ++ [e1; e2]) m)).
  { rewrite Hm1. apply run_usTicks. }
  rewrite Hu. fold (stamp (run (pre ++ [e1; e2]) m)). auto.
Qed.

Lemma vals_in_period_tail (scale : Z) (a b : schedule) :
  vals_in_period scale (a ++ b) -> vals_in_period scale b.
Proof. unfold vals_in_period. rewrite Forall_app. tauto. Qed.

(** With the register within the period the value returned is within one
    millisecond above the tick counter. *)
Lemma micros_upper (m : machine) (s : schedule) (v : Z) (m' : machine)
      (s' : schedule) :
  wf m -> 0 < usTicks m -> usTicks m * 1000 < 2 ^ 32 ->
  vals_in_period (usTicks m) s ->
  micros m s = Ret v m' s' ->
  sysTickUptime m' * 1000 <= v <= sysTickUptime m' * 1000 + 1000
  /\ wf m' /\ usTicks m' = usTicks m /\ vals_in_period (usTicks m) s'.
Proof.
  intros Hwf Hu Hk Hv Hcall. pose proof Hwf as [_ Hc].
  apply micros_inv in Hcall. destruct Hcall as (ms & c & Hs & _ & ->).
  apply micros_sample_inv in Hs.
  destruct Hs as (pre & e1 & e2 & e3 & Hs & _ & Hcv & Hm' & Hms).
  assert (Hu' : usTicks m' = usTicks m) by (rewrite Hm'; apply run_usTicks).
  assert (Hwf' : wf m') by (rewrite Hm'; now apply run_wf).
  assert (Hc2 : 0 <= c < usTicks m * 1000).
  { rewrite Hcv, run_app. change (val e2) with ((fun e => val e) e2).
    unfold vals_in_period in Hv. rewrite Forall_forall in Hv.
    apply (Hv e2). rewrite Hs. apply in_or_app. right. right. now left. }
  assert (Hv' : vals_in_period (usTicks m) s').
  { rewrite Hs in Hv. apply vals_in_period_tail in Hv.
    apply (vals_in_period_tail _ [e1; e2; e3]). exact Hv. }
  rewrite Hu', Hms.
  assert (Hr : 0 <= ms < 2 ^ 32) by (rewrite <- Hms; apply Hwf').
  rewrite micros_value_spec by lia. unfold micros_spec.
  assert (Hq : 0 <= (usTicks m * 1000 - c) / usTicks m <= 1000).
  { split; [apply Z.div_pos; lia|]. apply Z.div_le_upper_bound; lia. }
  repeat split; auto; lia.
Qed.

(** X1. cycleCounterInit stores the whole number of MHz of the system clock
    and changes nothing else: the scale factor is at most 4294, so that
    usTicks * 1000 in micros() cannot overflow 32 bits, and it is zero
    exactly when the clock is below 1 MHz. *)
Theorem cycleCounterInit_bounds :
  forall m s,
    0 <= SYSCLK_Frequency m < 2 ^ 32 ->
    exists m',
      cycleCounterInit m s = Ret tt m' s
      /\ m' = set_usTicks (usTicks m') m
      /\ usTicks m' * 1000000 <= SYSCLK_Frequency m < (usTicks m' + 1) * 1000000
      /\ 0 <= usTicks m' <= 4294
      /\ usTicks m' * 1000 < 2 ^ 32
      /\ (usTicks m' = 0 <-> SYSCLK_Frequency m < 1000000).
Proof.
  intros m s Hf. exists (set_usTicks (SYSCLK_Frequency m / 1000000) m).
  split; [now apply cycleCounterInit_scale|].
  split; [reflexivity|]. simpl usTicks.
  pose proof (Z.div_mod (SYSCLK_Frequency m) 1000000) as Hdm.
  pose proof (Z.mod_pos_bound (SYSCLK_Frequency m) 1000000) as Hmod.
  set (q := SYSCLK_Frequency m / 1000000) in *.
  lia.
Qed.

Lemma cycleCounterInit_bounds_witness :
  exists m',
    cycleCounterInit boot [] = Ret tt m' []
    /\ m' = set_usTicks (usTicks m') boot
    /\ usTicks m' * 1000000 <= SYSCLK_Frequency boot < (usTicks m' + 1) * 1000000
    /\ 0 <= usTicks m' <= 4294
    /\ usTicks m' * 1000 < 2 ^ 32
    /\ (usTicks m' = 0 <-> SYSCLK_Frequency boot < 1000000).
Proof.
  apply (cycleCounterInit_bounds boot []). simpl. lia.
Defined.

(** X3. With the scale factor set and the countdown register within the
    period, the value micros() returns is within one millisecond above the
    tick counter: a millis() that follows with no tick in between returns
    [t] with t * 1000 <= micros <= t * 1000 + 1000. *)
Theorem micros_within_millisecond :
  forall m s v m' e rest,
    wf m -> 0 < usTicks m -> usTicks m * 1000 < 2 ^ 32 ->
    vals_in_period (usTicks m) s ->
    micros m s = Ret v m' (e :: rest) ->
    ticks e = 0%N ->
    exists t m2,
      millis m' (e :: rest) = Ret t m2 rest
      /\ t * 1000 <= v <= t * 1000 + 1000.
Proof.
  intros m s v m' e rest Hwf Hu Hk Hv Hcall He.
  destruct (micros_upper m s v m' (e :: rest) Hwf Hu Hk Hv Hcall)
    as (Hb & Hwf' & _ & _).
  exists (sysTickUptime m'), (interfere e m'). split; [|exact Hb].
  unfold millis, vread. cbv zeta.
  rewrite (interfere_count e m') by apply Hwf'. rewrite He.
  change (Z.of_N 0) with 0. rewrite Z.add_0_r, u32_small by apply Hwf'.
  reflexivity.
Qed.

Lemma micros_within_millisecond_witness :
  exists t m2,
    millis (run (firstn 3 stopwatch) running)
           (mkInterference 0 60000 :: skipn 4 stopwatch)
    = Ret t m2 (skipn 4 stopwatch)
    /\ t * 1000 <= 15 <= t * 1000 + 1000.
Proof.
  apply (micros_within_millisecond running stopwatch
           15 (run (firstn 3 stopwatch) running) (mkInterference 0 60000)
           (skipn 4 stopwatch)).
  - split; simpl; lia.
  - simpl. lia.
  - simpl. lia.
  - unfold vals_in_period. simpl. repeat constructor; simpl; lia.
  - vm_compute; reflexivity.
  - reflexivity.
Defined.

(** X4. When the countdown register reads above usTicks * 1000, as it can
    when the clock is not a whole number of MHz, the uint32_t subtraction in
    micros() wraps: the sub-millisecond part becomes
    (2^32 - (cycle_cnt - usTicks * 1000)) / usTicks, and for any value the
    24-bit register can hold the result is more than a millisecond above
    the tick counter. *)
Theorem micros_overrun :
  forall m s v m' s',
    wf m -> 0 < usTicks m -> usTicks m * 1000 < 2 ^ 32 ->
    micros m s = Ret v m' s' ->
    exists pre e1 e2 e3,
      s = pre ++ e1 :: e2 :: e3 :: s'
      /\ (usTicks m * 1000 < val e2 < 2 ^ 32 ->
          v = sysTickUptime m' * 1000
              + (2 ^ 32 - (val e2 - usTicks m * 1000)) / usTicks m
          /\ (val e2 < 2 ^ 24 -> sysTickUptime m' * 1000 + 1000 < v)).
Proof.
  intros m s v m' s' Hwf Hu Hk Hcall. pose proof Hwf as [_ Hc].
  apply micros_inv in Hcall. destruct Hcall as (ms & c & Hs & _ & ->).
  apply micros_sample_inv in Hs.
  destruct Hs as (pre & e1 & e2 & e3 & Hs & _ & Hcv & Hm' & Hms).
  assert (Hu' : usTicks m' = usTicks m) by (rewrite Hm'; apply run_usTicks).
  assert (Hr : 0 <= ms < 2 ^ 32).
  { rewrite <- Hms, Hm'. apply run_wf. exact Hwf. }
  assert (Hc2 : c = val e2) by (rewrite Hcv, run_app; reflexivity).
  exists pre, e1, e2, e3. split; [exact Hs|]. intros Hover.
  rewrite Hu', Hms, micros_value_exact by lia. rewrite Hc2.
  assert (Hwrap : u32 (usTicks m * 1000 - val e2)
                  = 2 ^ 32 - (val e2 - usTicks m * 1000)).
  { unfold u32.
    replace (usTicks m * 1000 - val e2)
      with (2 ^ 32 - (val e2 - usTicks m * 1000) + (-1) * 2 ^ 32) by lia.
    rewrite Z_mod_plus_full. apply Z.mod_small. lia. }
  rewrite Hwrap. split; [reflexivity|]. intros H24.
  assert (1001 <= (2 ^ 32 - (val e2 - usTicks m * 1000)) / usTicks m)
    by (apply Z.div_le_lower_bound; lia).
  lia.
Qed.

Lemma micros_overrun_witness :
  exists pre e1 e2 e3,
    overrun = pre ++ e1 :: e2 :: e3 :: []
    /\ (usTicks up * 1000 < val e2 < 2 ^ 32 ->
        59652316 = sysTickUptime (run overrun up) * 1000
                   + (2 ^ 32 - (val e2 - usTicks up * 1000)) / usTicks up
        /\ (val e2 < 2 ^ 24 ->
            sysTickUptime (run overrun up) * 1000 + 1000 < 59652316)).
Proof.
  apply (micros_overrun up overrun 59652316 (run overrun up) []).
  - split; simpl; lia.
  - simpl. lia.
  - simpl. lia.
  - vm_compute; reflexivity.
Defined.

(** X5. The microsecond clock follows the 32-bit tick counter over its
    rollover: when the counter sampled by a second call is below the one
    sampled by the first, the second value is lower than the first by at
    least the difference of the counters less one millisecond, some 49.7
    days when the counter went from 2^32 - 1 to 0. *)
Theorem micros_drops_at_rollover :
  forall m s v1 m1 s1 v2 m2 s2,
    wf m -> 0 < usTicks m -> usTicks m * 1000 < 2 ^ 32 ->
    vals_in_period (usTicks m) s ->
    micros m s = Ret v1 m1 s1 ->
    micros m1 s1 = Ret v2 m2 s2 ->
    sysTickUptime m2 < sysTickUptime m1 ->
    v2 + (sysTickUptime m1 - sysTickUptime m2 - 1) * 1000 <= v1.
Proof.
  intros m s v1 m1 s1 v2 m2 s2 Hwf Hu Hk Hv H1 H2 Hback.
  destruct (micros_upper m s v1 m1 s1 Hwf Hu Hk Hv H1)
    as (Hb1 & Hwf1 & Hu1 & Hv1).
  rewrite <- Hu1 in Hu, Hk, Hv1.
  destruct (micros_upper m1 s1 v2 m2 s2 Hwf1 Hu Hk Hv1 H2) as (Hb2 & _).
  lia.
Qed.

Lemma micros_drops_at_rollover_witness :
  2 + (sysTickUptime (run (firstn 3 across) last_ms)
       - sysTickUptime (run across last_ms) - 1) * 1000
  <= 4294967295500.
Proof.
  apply (micros_drops_at_rollover last_ms across
           4294967295500 (run (firstn 3 across) last_ms) (skipn 3 across)
           2 (run across last_ms) []).
  - split; simpl; lia.
  - simpl. lia.
  - simpl. lia.
  - unfold vals_in_period. simpl. repeat constructor; simpl; lia.
  - vm_compute; reflexivity.
  - vm_compute; reflexivity.
  - vm_compute; reflexivity.
Defined.

(** X6. The unsigned 32-bit difference of two millis() readings is the
    number of ticks delivered between them, also when the counter rolled
    over in between, as long as fewer than 2^32 ticks went by. *)
Theorem millis_difference :
  forall m e1 e2 rest t1 m1 t2 m2,
    0 <= sysTickUptime m < 2 ^ 32 ->
    millis m (e1 :: e2 :: rest) = Ret t1 m1 (e2 :: rest) ->
    millis m1 (e2 :: rest) = Ret t2 m2 rest ->
    (ticks e2 < 2 ^ 32)%N ->
    u32 (t2 - t1) = Z.of_N (ticks e2).
Proof.
  intros m e1 e2 rest t1 m1 t2 m2 Hm H1 H2 Hn.
  assert (Ht1 : sysTickUptime (interfere e1 m) = t1)
    by (unfold millis, vread in H1; cbv zeta in H1; congruence).
  assert (Hm1 : interfere e1 m = m1)
    by (unfold millis, vread in H1; cbv zeta in H1; congruence).
  assert (Ht2 : sysTickUptime (interfere e2 m1) = t2)
    by (unfold millis, vread in H2; cbv zeta in H2; congruence).
  assert (Hr : 0 <= t1 < 2 ^ 32).
  { rewrite <- Ht1, interfere_count by assumption. apply u32_range. }
  rewrite <- Ht2, <- Hm1, (interfere_count e2 (interfere e1 m))
    by (rewrite interfere_count by assumption; apply u32_range).
  rewrite Ht1. unfold u32. rewrite Zminus_mod_idemp_l.
  replace (t1 + Z.of_N (ticks e2) - t1) with (Z.of_N (ticks e2)) by lia.
  apply Z.mod_small. lia.
Qed.

Lemma millis_difference_witness :
  u32 (4 - 4294967295) = Z.of_N (ticks (mkInterference 5 100)).
Proof.
  apply (millis_difference last_ms (mkInterference 0 200) (mkInterference 5 100) []
           4294967295 (run [mkInterference 0 200] last_ms)
           4 (run [mkInterference 0 200; mkInterference 5 100] last_ms)).
  - simpl. lia.
  - vm_compute; reflexivity.
  - vm_compute; reflexivity.
  - simpl. lia.
Defined.

(** * Further properties of the delays *)

Lemma micros_calls_sandwich (k : nat) :
  forall m s t m' s',
    steady m s -> micros_calls k m s = Ret t m' s' ->
    stamp m <= t /\ t <= stamp m' /\ steady m' s'.
Proof.
  induction k as [|k IH]; intros m s t m' s' Hst H; cbn [micros_calls] in H.
  - now apply micros_sandwich with (s := s).
  - unfold bind in H.
    destruct (micros m s) as [t0 m1 s1| | |] eqn:E; try discriminate H.
    destruct (micros_sandwich m s t0 m1 s1 Hst E) as (Hlo & Hhi & Hst1).
    destruct (IH m1 s1 t m' s' Hst1 H) as (Hlo' & Hhi' & Hst').
    split; [lia|]. split; [lia|exact Hst'].
Qed.

Lemma micros_calls_split (j i : nat) :
  forall m s,
    micros_calls (j + S i) m s
    = (micros_calls j ;; micros_calls i) m s.
Proof.
  induction j as [|j IH]; intros m s.
  - reflexivity.
  - cbn [Nat.add micros_calls]. unfold bind at 1 2 3.
    destruct (micros m s) as [t0 m1 s1| | |]; try reflexivity.
    rewrite IH. reflexivity.
Qed.

Lemma spin_sandwich (fuel : nat) (d : Z) (m : machine) (s : schedule)
      (m' : machine) (s' : schedule) :
  steady m s -> spin fuel d m s = Ret tt m' s' ->
  d <= stamp m' /\ stamp m <= stamp m' /\ steady m' s'.
Proof.
  intros Hst H. apply spin_inv in H. destruct H as (k & t & Hk & Hd & _).
  destruct (micros_calls_sandwich k m s t m' s' Hst Hk) as (Hlo & Hhi & Hst').
  split; [lia|]. split; [lia|exact Hst'].
Qed.

Lemma delayMicroseconds_advance (us : Z) (m : machine) (s : schedule)
      (m' : machine) (s' : schedule) :
  steady m s -> 0 <= us < 2 ^ 32 ->
  delayMicroseconds us m s = Ret tt m' s' ->
  stamp m + us <= stamp m' /\ steady m' s'.
Proof.
  intros Hst Hus H. unfold delayMicroseconds, bind in H.
  destruct (micros m s) as [start m0 s0| | |] eqn:E; try discriminate H.
  pose proof (micros_range m s start m0 s0 (proj1 Hst) E) as Hr.
  rewrite u64_small in H by lia.
  destruct (micros_sandwich m s start m0 s0 Hst E) as (Hlo & _ & Hst0).
  destruct (spin_sandwich _ _ _ _ _ _ Hst0 H) as (Hd & _ & Hst').
  split; [lia|exact Hst'].
Qed.

Lemma delay_spec_advance (n : nat) :
  forall m s m' s',
    steady m s -> delay_spec n m s = Ret tt m' s' ->
    stamp m + Z.of_nat n * 1000 <= stamp m' /\ steady m' s'.
Proof.
  induction n as [|n IH]; intros m s m' s' Hst H; cbn [delay_spec] in H.
  - unfold ret in H. injection H as <- <-. split; [simpl; lia|exact Hst].
  - unfold bind in H.
    destruct (delayMicroseconds 1000 m s) as [[] m1 s1| | |] eqn:E;
      try discriminate H.
    destruct (delayMicroseconds_advance 1000 m s m1 s1 Hst ltac:(lia) E)
      as (Hadv & Hst1).
    destruct (IH m1 s1 m' s' Hst1 H) as (Hadv' & Hst').
    split; [lia|exact Hst'].
Qed.

(** X7. Along any run of successive calls of micros() a later call never
    returns less than an earlier one, under the well-behaved clock
    ([steady]): the value of call [j] is at most the value of call
    [j + 1 + i]. *)
Theorem micros_calls_monotone :
  forall m s j i tj mj sj t m' s',
    steady m s ->
    micros_calls j m s = Ret tj mj sj ->
    micros_calls (j + S i) m s = Ret t m' s' ->
    tj <= t.
Proof.
  intros m s j i tj mj sj t m' s' Hst Hj Hk.
  rewrite micros_calls_split in Hk. unfold bind in Hk. rewrite Hj in Hk.
  destruct (micros_calls_sandwich j m s tj mj sj Hst Hj) as (_ & Hhi & Hstj).
  destruct (micros_calls_sandwich i mj sj t m' s' Hstj Hk) as (Hlo & _ & _).
  lia.
Qed.

Lemma micros_calls_monotone_witness : 15 <= 1445.
Proof.
  apply (micros_calls_monotone running stopwatch 0 2
           15 (run (firstn 3 stopwatch) running) (skipn 3 stopwatch)
           1445 (run stopwatch running) []).
  - unfold steady, wf, in_period. simpl. repeat split; lia.
  - vm_compute; reflexivity.
  - vm_compute; reflexivity.
Defined.

(** X8. delayMicroseconds(us) really waits: a micros() taken right after it
    returns is at least us above a micros() taken right before it was
    called, under the well-behaved clock. *)
Theorem delayMicroseconds_elapsed :
  forall us m s t0 m0 s0 m1 s1 t1 m2 s2,
    steady m s -> 0 <= us < 2 ^ 32 ->
    micros m s = Ret t0 m0 s0 ->
    delayMicroseconds us m0 s0 = Ret tt m1 s1 ->
    micros m1 s1 = Ret t1 m2 s2 ->
    t0 + us <= t1.
Proof.
  intros us m s t0 m0 s0 m1 s1 t1 m2 s2 Hst Hus Hb Hd Ha.
  destruct (micros_sandwich m s t0 m0 s0 Hst Hb) as (_ & Hhi & Hst0).
  destruct (delayMicroseconds_advance us m0 s0 m1 s1 Hst0 Hus Hd)
    as (Hadv & Hst1).
  destruct (micros_sandwich m1 s1 t1 m2 s2 Hst1 Ha) as (Hlo & _ & _).
  lia.
Qed.

Lemma delayMicroseconds_elapsed_witness : 15 + 1000 <= 1445.
Proof.
  apply (delayMicroseconds_elapsed 1000 running stopwatch
           15 (run (firstn 3 stopwatch) running) (skipn 3 stopwatch)
           (run (firstn 9 stopwatch) running) (skipn 9 stopwatch)
           1445 (run stopwatch running) []).
  - unfold steady, wf, in_period. simpl. repeat split; lia.
  - lia.
  - vm_compute; reflexivity.
  - vm_compute; reflexivity.
  - vm_compute; reflexivity.
Defined.

(** X9. delay(ms) really waits ms milliseconds: a micros() taken right
    after it returns is at least ms * 1000 above a micros() taken right
    before it was called, under the well-behaved clock. *)
Theorem delay_elapsed :
  forall ms m s t0 m0 s0 m1 s1 t1 m2 s2,
    steady m s -> 0 <= ms < 2 ^ 32 ->
    micros m s = Ret t0 m0 s0 ->
    delay ms m0 s0 = Ret tt m1 s1 ->
    micros m1 s1 = Ret t1 m2 s2 ->
    t0 + ms * 1000 <= t1.
Proof.
  intros ms m s t0 m0 s0 m1 s1 t1 m2 s2 Hst Hms Hb Hd Ha.
  destruct (micros_sandwich m s t0 m0 s0 Hst Hb) as (_ & Hhi & Hst0).
  unfold delay in Hd.
  rewrite (delay_loop_spec (Z.to_nat ms)) in Hd by (auto; lia).
  destruct (delay_spec_advance _ m0 s0 m1 s1 Hst0 Hd) as (Hadv & Hst1).
  destruct (micros_sandwich m1 s1 t1 m2 s2 Hst1 Ha) as (Hlo & _ & _).
  rewrite Z2Nat.id in Hadv by lia. lia.
Qed.

Lemma delay_elapsed_witness : 15 + 1 * 1000 <= 1445.
Proof.
  apply (delay_elapsed 1 running stopwatch
           15 (run (firstn 3 stopwatch) running) (skipn 3 stopwatch)
           (run (firstn 9 stopwatch) running) (skipn 9 stopwatch)
           1445 (run stopwatch running) []).
  - unfold steady, wf, in_period. simpl. repeat split; lia.
  - lia.
  - vm_compute; reflexivity.
  - vm_compute; reflexivity.
  - vm_compute; reflexivity.
Defined.

Lemma delay_spec_add (n1 n2 : nat) :
  forall m s,
    delay_spec (n1 + n2) m s = (delay_spec n1 ;; delay_spec n2) m s.
Proof.
  induction n1 as [|n1 IH]; intros m s.
  - reflexivity.
  - cbn [Nat.add delay_spec]. unfold bind at 1 2 3.
    destruct (delayMicroseconds 1000 m s) as [[] m1 s1| | |]; try reflexivity.
    rewrite IH. reflexivity.
Qed.

(** X10. Delays add up: delay(a + b) has the same outcome as delay(a)
    followed by delay(b), on every machine and schedule, as long as a + b
    fits the uint32_t argument. *)
Theorem delay_add :
  forall a b m s,
    0 <= a -> 0 <= b -> a + b < 2 ^ 32 ->
    delay (a + b) m s = (delay a ;; delay b) m s.
Proof.
  intros a b m s Ha Hb Hab. unfold delay.
  rewrite (delay_loop_spec (Z.to_nat a + Z.to_nat b)) by lia.
  rewrite delay_spec_add. unfold bind.
  rewrite (delay_loop_spec (Z.to_nat a)) by (auto; lia).
  destruct (delay_spec (Z.to_nat a) m s) as [[] m1 s1| | |]; try reflexivity.
  rewrite (delay_loop_spec (Z.to_nat b)) by (auto; lia). reflexivity.
Qed.

Lemma delay_add_witness :
  delay (1 + 2) running stopwatch = (delay 1 ;; delay 2) running stopwatch.
Proof.
  apply (delay_add 1 2 running stopwatch); lia.
Defined.

Lemma micros_calls_consumed (k : nat) :
  forall m s t m' s',
    micros_calls k m s = Ret t m' s' ->
    exists pre, s = pre ++ s' /\ m' = run pre m
                /\ (3 * S k <= length pre)%nat.
Proof.
  induction k as [|k IH]; intros m s t m' s' H; cbn [micros_calls] in H.
  - apply micros_env_only in H. destruct H as (pre & Hs & Hm & Hl).
    exists pre. repeat split; auto; lia.
  - unfold bind in H.
    destruct (micros m s) as [t0 m1 s1| | |] eqn:E; try discriminate H.
    apply micros_env_only in E. destruct E as (p0 & -> & -> & Hl0).
    apply IH in H. destruct H as (p1 & -> & -> & Hl1).
    exists (p0 ++ p1). rewrite <- app_assoc, run_app, length_app.
    repeat split; auto; lia.
Qed.

Lemma delayMicroseconds_consumed (us : Z) (m : machine) (s : schedule)
      (m' : machine) (s' : schedule) :
  delayMicroseconds us m s = Ret tt m' s' ->
  exists pre, s = pre ++ s' /\ m' = run pre m /\ (6 <= length pre)%nat.
Proof.
  intros H. unfold delayMicroseconds, bind in H.
  destruct (micros m s) as [start m0 s0| | |] eqn:E; try discriminate H.
  apply micros_env_only in E. destruct E as (p0 & -> & -> & Hl0).
  apply spin_inv in H. destruct H as (k & t & Hk & _ & _).
  apply micros_calls_consumed in Hk. destruct Hk as (p1 & -> & -> & Hl1).
  exists (p0 ++ p1). rewrite <- app_assoc, run_app, length_app.
  repeat split; auto; lia.
Qed.

Lemma delay_spec_consumed (n : nat) :
  forall m s m' s',
    delay_spec n m s = Ret tt m' s' ->
    exists pre, s = pre ++ s' /\ m' = run pre m /\ (6 * n <= length pre)%nat.
Proof.
  induction n as [|n IH]; intros m s m' s' H; cbn [delay_spec] in H.
  - unfold ret in H. injection H as <- <-. exists []. simpl. auto.
  - unfold bind in H.
    destruct (delayMicroseconds 1000 m s) as [[] m1 s1| | |] eqn:E;
      try discriminate H.
    apply delayMicroseconds_consumed in E. destruct E as (p0 & -> & -> & Hl0).
    apply IH in H. destruct H as (p1 & -> & -> & Hl1).
    exists (p0 ++ p1). rewrite <- app_assoc, run_app, length_app.
    repeat split; auto; lia.
Qed.

(** X11. delay(ms) only reads: when it returns, the machine is the one it
    started from with nothing but the hardware's interference applied (no
    store issued, LEDs, backup region and scale factor as they were), and it
    has read the timebase at least 6 * ms times, two calls of micros() for
    each millisecond. *)
Theorem delay_only_reads :
  forall ms m s m' s',
    0 <= ms < 2 ^ 32 ->
    delay ms m s = Ret tt m' s' ->
    exists pre,
      s = pre ++ s' /\ m' = run pre m
      /\ 6 * ms <= Z.of_nat (length pre)
      /\ bus m' = bus m /\ led0 m' = led0 m /\ led1 m' = led1 m
      /\ usTicks m' = usTicks m.
Proof.
  intros ms m s m' s' Hms H. unfold delay in H.
  rewrite (delay_loop_spec (Z.to_nat ms)) in H by (auto; lia).
  apply delay_spec_consumed in H. destruct H as (pre & Hs & Hm & Hl).
  exists pre. split; [exact Hs|]. split; [exact Hm|]. split; [lia|].
  rewrite Hm. clear. revert m.
  induction pre as [|e pre IH]; intros m; [auto|].
  change (run (e :: pre) m) with (run pre (interfere e m)).
  destruct (IH (interfere e m)) as (Hb & H0 & H1 & Hu).
  rewrite Hb, H0, H1, Hu, interfere_frame. auto.
Qed.

Lemma delay_only_reads_witness :
  exists pre,
    one_ms = pre ++ [] /\ run one_ms up = run pre up
    /\ 6 * 1 <= Z.of_nat (length pre)
    /\ bus (run one_ms up) = bus up /\ led0 (run one_ms up) = led0 up
    /\ led1 (run one_ms up) = led1 up
    /\ usTicks (run one_ms up) = usTicks up.
Proof.
  apply (delay_only_reads 1 up one_ms (run one_ms up) []).
  - lia.
  - vm_compute; reflexivity.
Defined.

(** X12. With a zero argument delayMicroseconds returns at its first poll,
    after exactly two calls of micros(), under the well-behaved clock: the
    poll cannot be below the start value. *)
Theorem delayMicroseconds_zero :
  forall m s start m0 s0 t m' s',
    steady m s ->
    micros m s = Ret start m0 s0 ->
    micros m0 s0 = Ret t m' s' ->
    delayMicroseconds 0 m s = Ret tt m' s'.
Proof.
  intros m s start m0 s0 t m' s' Hst H0 H1.
  destruct (micros_sandwich m s start m0 s0 Hst H0) as (_ & Hhi & Hst0).
  destruct (micros_sandwich m0 s0 t m' s' Hst0 H1) as (Hlo & _ & _).
  pose proof (micros_range m s start m0 s0 (proj1 Hst) H0) as Hr.
  unfold delayMicroseconds, bind. rewrite H0.
  rewrite Z.add_0_r, u64_small by lia.
  apply micros_env_only in H0. destruct H0 as (pre & Hs & _ & Hl).
  destruct (length s) as [|fuel] eqn:El.
  - rewrite Hs, length_app in El. lia.
  - cbn [spin]. unfold bind. rewrite H1.
    destruct (Z.ltb_spec t start); [lia|reflexivity].
Qed.

Lemma delayMicroseconds_zero_witness :
  delayMicroseconds 0 running stopwatch
  = Ret tt (run (firstn 6 stopwatch) running) (skipn 6 stopwatch).
Proof.
  apply (delayMicroseconds_zero running stopwatch
           15 (run (firstn 3 stopwatch) running) (skipn 3 stopwatch) 168).
  - unfold steady, wf, in_period. simpl. repeat split; lia.
  - vm_compute; reflexivity.
  - vm_compute; reflexivity.
Defined.

Lemma spin_past_rollover (fuel : nat) :
  forall d m s,
    wf m -> 0 < usTicks m -> usTicks m * 1000 < 2 ^ 32 ->
    vals_in_period (usTicks m) s ->
    2 ^ 32 * 1000 < d ->
    forall m' s', spin fuel d m s <> Ret tt m' s'.
Proof.
  induction fuel as [|fuel IH]; intros d m s Hwf Hu Hk Hv Hd m' s' H;
    cbn [spin] in H.
  - discriminate H.
  - unfold bind in H.
    destruct (micros m s) as [t m1 s1| | |] eqn:E; try discriminate H.
    destruct (micros_upper m s t m1 s1 Hwf Hu Hk Hv E)
      as (Hb & Hwf1 & Hu1 & Hv1).
    pose proof (proj2 Hwf1) as Hc1.
    destruct (Z.ltb_spec t d); [|lia].
    rewrite <- Hu1 in Hu, Hk, Hv1.
    exact (IH d m1 s1 Hwf1 Hu Hk Hv1 Hd m' s' H).
Qed.

(** X13. No value of micros() exceeds 2^32 * 1000, so a delayMicroseconds
    whose deadline start + us lies beyond that, which takes a start in the
    last milliseconds before the counter rolls over, never returns, whatever
    the hardware does afterwards with the register within the period. *)
Theorem delayMicroseconds_stuck_at_rollover :
  forall us m s start m0 s0,
    wf m -> 0 < usTicks m -> usTicks m * 1000 < 2 ^ 32 ->
    vals_in_period (usTicks m) s ->
    0 <= us < 2 ^ 32 ->
    micros m s = Ret start m0 s0 ->
    2 ^ 32 * 1000 < start + us ->
    forall m' s', delayMicroseconds us m s <> Ret tt m' s'.
Proof.
  intros us m s start m0 s0 Hwf Hu Hk Hv Hus H0 Hlate m' s' H.
  unfold delayMicroseconds, bind in H. rewrite H0 in H.
  pose proof (micros_range m s start m0 s0 Hwf H0) as Hr.
  rewrite u64_small in H by lia.
  destruct (micros_upper m s start m0 s0 Hwf Hu Hk Hv H0)
    as (_ & Hwf0 & Hu0 & Hv0).
  rewrite <- Hu0 in Hu, Hk, Hv0.
  exact (spin_past_rollover _ _ m0 s0 Hwf0 Hu Hk Hv0 Hlate m' s' H).
Qed.

Lemma delayMicroseconds_stuck_at_rollover_witness :
  ~ exists m' s', delayMicroseconds 1000 last_ms across = Ret tt m' s'.
Proof.
  intros (m' & s' & H). revert m' s' H.
  apply (delayMicroseconds_stuck_at_rollover 1000 last_ms across
           4294967295500 (run (firstn 3 across) last_ms) (skipn 3 across)).
  - split; simpl; lia.
  - simpl. lia.
  - simpl. lia.
  - unfold vals_in_period. simpl. repeat constructor; simpl; lia.
  - lia.
  - vm_compute; reflexivity.
  - lia.
Defined.

(** * Further properties of the backup register *)

Lemma join_halves (lo hi : Z) :
  0 <= lo < 2 ^ 16 -> 0 <= hi < 2 ^ 16 ->
  u32 (Z.lor lo (s32 (Z.shiftl hi 16))) = lo + hi * 2 ^ 16.
Proof.
  intros Hlo Hhi. rewrite Z.shiftl_mul_pow2 by lia. unfold s32.
  rewrite (Z.mod_eq (hi * 2 ^ 16 + 2 ^ 31)) by lia.
  set (q := (hi * 2 ^ 16 + 2 ^ 31) / 2 ^ 32).
  replace (hi * 2 ^ 16 + 2 ^ 31 - 2 ^ 32 * q - 2 ^ 31)
    with ((hi - q * 2 ^ 16) * 2 ^ 16) by lia.
  rewrite lor_disjoint by assumption.
  replace (lo + (hi - q * 2 ^ 16) * 2 ^ 16)
    with (lo + hi * 2 ^ 16 + (- q) * 2 ^ 32) by lia.
  unfold u32. rewrite Z_mod_plus_full. apply Z.mod_small. lia.
Qed.

Lemma lor_keeps_u32 (a b : Z) :
  0 <= a < 2 ^ 32 -> 0 <= b < 2 ^ 32 -> u32 (Z.lor a b) = Z.lor a b.
Proof.
  intros Ha Hb. unfold u32. rewrite <- Z.land_ones by lia.
  rewrite Z.land_lor_distr_l, !Z.land_ones by lia.
  now rewrite !Z.mod_small by lia.
Qed.

Lemma lor_covers (a b : Z) :
  Z.land (Z.lor a b) a = a /\ Z.land (Z.lor a b) b = b.
Proof.
  split; apply Z.bits_inj'; intros n _;
    rewrite Z.land_spec, Z.lor_spec;
    destruct (Z.testbit a n), (Z.testbit b n); reflexivity.
Qed.

(** X14. rccReadBkpDr joins whatever the two halfwords hold: with halfword
    0x04 = lo and halfword 0x08 = hi it returns lo + hi * 65536 and leaves
    the machine alone, also when the top bit of hi is set and the shift of
    the promoted int leaves the range of int. *)
Theorem rccReadBkpDr_joins :
  forall m s,
    0 <= BKP m 0x04 < 2 ^ 16 -> 0 <= BKP m 0x08 < 2 ^ 16 ->
    rccReadBkpDr m s = Ret (BKP m 0x04 + BKP m 0x08 * 65536) m s.
Proof.
  intros m s Hlo Hhi. unfold rccReadBkpDr, bind, get, ret.
  now rewrite join_halves by assumption.
Qed.

Lemma rccReadBkpDr_joins_witness :
  rccReadBkpDr (set_BKP 0x08 0xCAFE (set_BKP 0x04 0xF00D boot)) []
  = Ret (BKP (set_BKP 0x08 0xCAFE (set_BKP 0x04 0xF00D boot)) 0x04
         + BKP (set_BKP 0x08 0xCAFE (set_BKP 0x04 0xF00D boot)) 0x08 * 65536)
        (set_BKP 0x08 0xCAFE (set_BKP 0x04 0xF00D boot)) [].
Proof.
  apply (rccReadBkpDr_joins (set_BKP 0x08 0xCAFE (set_BKP 0x04 0xF00D boot)) []).
  - vm_compute. split; [discriminate|reflexivity].
  - vm_compute. split; [discriminate|reflexivity].
Defined.

(** X15. The last write wins: after two calls of rccWriteBkpDr the register
    reads back as the second value, whatever the first one was. *)
Theorem bkp_last_write_wins :
  forall pwr bkp dbp v1 v2 m s,
    0 <= v2 < 2 ^ 32 ->
    exists m',
      (rccWriteBkpDr pwr bkp dbp v1 ;; rccWriteBkpDr pwr bkp dbp v2 ;;
       rccReadBkpDr) m s = Ret v2 m' s.
Proof.
  intros pwr bkp dbp v1 v2 m s Hv.
  destruct (rccWriteBkpDr_run pwr bkp dbp v1 m s) as (m1 & Hrun1 & _).
  destruct (rccWriteBkpDr_run pwr bkp dbp v2 m1 s)
    as (m2 & Hrun2 & _ & Hlo & Hhi & _).
  exists m2. unfold bind at 1. rewrite Hrun1.
  unfold bind at 1. rewrite Hrun2.
  unfold rccReadBkpDr, bind, get, ret. rewrite Hlo, Hhi.
  now rewrite halves_join.
Qed.

Lemma bkp_last_write_wins_witness :
  exists m',
    (rccWriteBkpDr 0x10000000 0x08000000 0x100 0xFFFFFFFF ;;
     rccWriteBkpDr 0x10000000 0x08000000 0x100 0x50F7B007 ;;
     rccReadBkpDr) boot [] = Ret 0x50F7B007 m' [].
Proof.
  apply (bkp_last_write_wins 0x10000000 0x08000000 0x100
           0xFFFFFFFF 0x50F7B007 boot []). lia.
Defined.

(** X16. rccWriteBkpDr sets the bit PWR_CR_DBP in PWR->CR and clears none
    that was set; it leaves the timebase, the indicators and SRAM as they
    were. *)
Theorem rccWriteBkpDr_unlocks :
  forall pwr bkp dbp v m s,
    0 <= dbp < 2 ^ 32 -> 0 <= PWR_CR m < 2 ^ 32 ->
    exists m',
      rccWriteBkpDr pwr bkp dbp v m s = Ret tt m' s
      /\ Z.land (PWR_CR m') dbp = dbp
      /\ Z.land (PWR_CR m') (PWR_CR m) = PWR_CR m
      /\ usTicks m' = usTicks m /\ sysTickUptime m' = sysTickUptime m
      /\ SysTick_VAL m' = SysTick_VAL m
      /\ led0 m' = led0 m /\ led1 m' = led1 m /\ RAM m' = RAM m.
Proof.
  intros pwr bkp dbp v m s Hd Hp. eexists. split; [reflexivity|].
  cbn [PWR_CR usTicks sysTickUptime SysTick_VAL led0 led1 RAM
       issue set_BKP set_PWR_CR set_RCC_APB1ENR].
  rewrite lor_keeps_u32 by assumption.
  destruct (lor_covers (PWR_CR m) dbp) as [Hold Hnew].
  repeat split; assumption.
Qed.

Lemma rccWriteBkpDr_unlocks_witness :
  exists m',
    rccWriteBkpDr 0x10000000 0x08000000 0x100 0x50F7B007 up [] = Ret tt m' []
    /\ Z.land (PWR_CR m') 0x100 = 0x100
    /\ Z.land (PWR_CR m') (PWR_CR up) = PWR_CR up
    /\ usTicks m' = usTicks up /\ sysTickUptime m' = sysTickUptime up
    /\ SysTick_VAL m' = SysTick_VAL up
    /\ led0 m' = led0 up /\ led1 m' = led1 up /\ RAM m' = RAM up.
Proof.
  apply (rccWriteBkpDr_unlocks 0x10000000 0x08000000 0x100 0x50F7B007 up []).
  - lia.
  - simpl. lia.
Defined.
